(** * gunicorn.config: settings registration, validation and the
      configuration object

    A shallow embedding of [gunicorn/config.py] (Python 2).  Python objects
    are modelled by the values the module handles (None, booleans, integers,
    byte strings, plain functions and opaque instances); exceptions by an
    error sum; the module-level list [KNOWN_SETTINGS] and the attributes of
    a [Config] instance by explicit state passing.  The operating-system
    capabilities the validators call ([os.geteuid], [pwd.getpwnam], ...)
    and the [gunicorn.util] helpers are read from a record [OS]. *)

From Stdlib Require Import ZArith Ascii String DecimalString DecimalFacts
  DecimalPos.
From stdpp Require Import base option list sorting gmap strings.

Local Open Scope Z_scope.
Local Open Scope string_scope.
Local Open Scope list_scope.

(** ** Python byte strings *)

Module PyStr.

Definition text := list ascii.

Definition nl : ascii := "010"%char.
Definition cr : ascii := "013"%char.
Definition tab : ascii := "009"%char.
Definition space : ascii := " "%char.

Definition code (c : ascii) : N := N_of_ascii c.

(** [isspace] of the C locale, which [str.strip] and [int] use. *)
Definition isspace (c : ascii) : bool :=
  ((9 <=? code c) && (code c <=? 13))%N || (code c =? 32)%N.

Definition is_digit (c : ascii) : bool :=
  ((48 <=? code c) && (code c <=? 57))%N.

(** [str.isdigit]: at least one character, all of them decimal digits. *)
Definition isdigit (s : string) : bool :=
  match list_ascii_of_string s with
  | [] => false
  | l => forallb is_digit l
  end.

Definition lower_char (c : ascii) : ascii :=
  if ((65 <=? code c) && (code c <=? 90))%N
  then ascii_of_N (code c + 32) else c.

(** [str.lower] *)
Definition lower (s : string) : string :=
  string_of_list_ascii (map lower_char (list_ascii_of_string s)).

Fixpoint lstrip (l : text) : text :=
  match l with
  | c :: l' => if isspace c then lstrip l' else l
  | [] => []
  end.

Definition rstrip (l : text) : text := rev (lstrip (rev l)).

Definition strip_text (l : text) : text := rstrip (lstrip l).

Definition all_space (l : text) : bool := forallb isspace l.

(** [str.strip] *)
Definition strip (s : string) : string :=
  string_of_list_ascii (strip_text (list_ascii_of_string s)).

(** [str.splitlines]: lines end at a line feed, a carriage return or a
    carriage return followed by a line feed; the terminators are dropped
    and no empty last line is produced. *)
Fixpoint splitlines_from (cur : text) (l : text) : list text :=
  match l with
  | [] => match cur with [] => [] | _ => [rev cur] end
  | c :: l' =>
      if Ascii.eqb c nl then rev cur :: splitlines_from [] l'
      else if Ascii.eqb c cr then
        match l' with
        | c' :: l'' =>
            if Ascii.eqb c' nl then rev cur :: splitlines_from [] l''
            else rev cur :: splitlines_from [] l'
        | [] => [rev cur]
        end
      else splitlines_from (c :: cur) l'
  end.

Definition splitlines_text (l : text) : list text := splitlines_from [] l.

Definition splitlines (s : string) : list string :=
  map string_of_list_ascii (splitlines_text (list_ascii_of_string s)).

(** *** textwrap.dedent

    [dedent] works line by line, a line being what a line feed ends (the
    patterns of the library are compiled with MULTILINE). *)

Fixpoint split_nl_from (cur : text) (l : text) : list text :=
  match l with
  | [] => [rev cur]
  | c :: l' =>
      if Ascii.eqb c nl then rev cur :: split_nl_from [] l'
      else split_nl_from (c :: cur) l'
  end.

Definition split_nl (l : text) : list text := split_nl_from [] l.

Fixpoint join_nl (ls : list text) : text :=
  match ls with
  | [] => []
  | [l] => l
  | l :: ls' => l ++ nl :: join_nl ls'
  end.

Definition is_blank (c : ascii) : bool :=
  Ascii.eqb c space || Ascii.eqb c tab.

(** [_whitespace_only_re.sub('', text)], on one line. *)
Definition clear_blank_line (l : text) : text :=
  if forallb is_blank l then [] else l.

Fixpoint indent_of (l : text) : text :=
  match l with
  | c :: l' => if is_blank c then c :: indent_of l' else []
  | [] => []
  end.

Fixpoint starts_with (p l : text) : bool :=
  match p, l with
  | [], _ => true
  | a :: p', b :: l' => Ascii.eqb a b && starts_with p' l'
  | _ :: _, [] => false
  end.

(** The loop over [indents]: [None] is the margin before the first line
    with text; two indents with no common start end the loop with an
    empty margin. *)
Fixpoint margin_of (margin : option text) (indents : list text) : option text :=
  match indents with
  | [] => margin
  | indent :: rest =>
      match margin with
      | None => margin_of (Some indent) rest
      | Some m =>
          if starts_with m indent then margin_of (Some m) rest
          else if starts_with indent m then margin_of (Some indent) rest
          else Some []
      end
  end.

Fixpoint drop_prefix (p l : text) : text :=
  match p, l with
  | _ :: p', _ :: l' => drop_prefix p' l'
  | _, _ => l
  end.

(** [re.sub(r'(?m)^' + margin, '', text)], on one line. *)
Definition remove_margin (m : text) (l : text) : text :=
  if starts_with m l then drop_prefix m l else l.

Definition dedent_text (t : text) : text :=
  let lines := map clear_blank_line (split_nl t) in
  let indents := map indent_of (filter (λ l, l ≠ []) lines) in
  match margin_of None indents with
  | Some (c :: m) => join_nl (map (remove_margin (c :: m)) lines)
  | _ => join_nl lines
  end.

Definition dedent (s : string) : string :=
  string_of_list_ascii (dedent_text (list_ascii_of_string s)).

(** *** int(s, 0)

    The reading of an integer literal with the base taken from its
    prefix, as [PyInt_FromString] and [PyOS_strtoul] of CPython 2 do it:
    blanks, a sign, blanks again, then [0x], [0o], [0b] or a bare [0]
    (octal) or nothing (decimal), the digits, and blanks up to the end.
    A literal too large for a C long is read again by the parser of
    [long], which finds the same number (and would also let a final [L]
    pass, which this model does not). *)

Definition digit_value (c : ascii) : N :=
  let n := code c in
  if ((48 <=? n) && (n <=? 57))%N then (n - 48)%N
  else if ((97 <=? n) && (n <=? 122))%N then (n - 87)%N
  else if ((65 <=? n) && (n <=? 90))%N then (n - 55)%N
  else 37%N.

(** The digits of [base] at the head of [l]: their value after [acc]
    and what follows them. *)
Fixpoint digits (base : N) (acc : Z) (l : text) : Z * text :=
  match l with
  | c :: l' =>
      if (digit_value c <? base)%N
      then digits base (acc * Z.of_N base + Z.of_N (digit_value c)) l'
      else (acc, l)
  | [] => (acc, [])
  end.

Definition is_one_of (a b : ascii) (c : ascii) : bool :=
  Ascii.eqb c a || Ascii.eqb c b.

(** After the [0] of a literal: a base letter counts only when a digit
    of that base follows it, otherwise the scan stops at the letter. *)
Definition prefixed (a b : ascii) (base : N) (l : text) : option (Z * text) :=
  match l with
  | c :: l' =>
      if is_one_of a b c then
        match l' with
        | d :: _ =>
            if (digit_value d <? base)%N then Some (digits base 0 l')
            else Some (0, l)
        | [] => Some (0, l)
        end
      else None
  | [] => None
  end.

(** [PyOS_strtoul(str, &end, 0)] after its blanks: [None] when not one
    character was read. *)
Definition strtoul0 (l : text) : option (Z * text) :=
  match l with
  | c :: l' =>
      if Ascii.eqb c "0"%char then
        match prefixed "x" "X" 16 l' with
        | Some r => Some r
        | None =>
            match prefixed "o" "O" 8 l' with
            | Some r => Some r
            | None =>
                match prefixed "b" "B" 2 l' with
                | Some r => Some r
                | None => Some (digits 8 0 l')
                end
            end
        end
      else if (digit_value c <? 10)%N then Some (digits 10 0 l)
      else None
  | [] => None
  end.

Definition int_text (l : text) : option Z :=
  let s := lstrip l in
  let '(sign, body) :=
    match s with
    | c :: s' =>
        if Ascii.eqb c "-"%char then (-1, lstrip s')
        else if Ascii.eqb c "+"%char then (1, lstrip s')
        else (1, s)
    | [] => (1, s)
    end in
  match strtoul0 body with
  | Some (n, rest) =>
      match lstrip rest with
      | [] => Some (sign * n)
      | _ :: _ => None
      end
  | None => None
  end.

(** [int(s, 0)] on a string; [None] stands for its ValueError. *)
Definition int_base0 (s : string) : option Z :=
  int_text (list_ascii_of_string s).

(** [int(s)] on a string for which [isdigit] holds. *)
Definition int_decimal (s : string) : Z :=
  fst (digits 10 0 (list_ascii_of_string s)).

(** [str(n)] of an integer. *)
Definition of_int (n : Z) : string :=
  NilZero.string_of_int (Z.to_int n).

(** [needle in s] for two strings. *)
Fixpoint contains_text (needle l : text) : bool :=
  starts_with needle l ||
  match l with
  | _ :: l' => contains_text needle l'
  | [] => false
  end.

Definition contains (needle s : string) : bool :=
  contains_text (list_ascii_of_string needle) (list_ascii_of_string s).

End PyStr.

(** ** Values, exceptions and the environment *)

(** A Python function, as far as [inspect.getargspec] sees it. *)
Record pyfunc := PyFunc { func_name : string; func_args : list string }.

(** The objects the module is handed: [VObj] is an instance of some other
    class, neither callable nor a string, number or container. *)
Inductive pyval :=
| VNone
| VBool (b : bool)
| VInt (n : Z)
| VStr (s : string)
| VFunc (f : pyfunc)
| VObj (id : string).

#[global] Instance pyfunc_eq_dec : EqDecision pyfunc.
Proof. solve_decision. Defined.
#[global] Instance pyval_eq_dec : EqDecision pyval.
Proof. solve_decision. Defined.

Inductive exn_class :=
| AttributeError | TypeError | ValueError | KeyError | IndexError | ConfigError.

(** [Raised c msg] is a [raise c(msg)] of the module; [Interp c] is an
    exception of class [c] that the interpreter or a library raises. *)
Inductive exn :=
| Raised (c : exn_class) (msg : string)
| Interp (c : exn_class).

Definition class_of (e : exn) : exn_class :=
  match e with Raised c _ => c | Interp c => c end.

#[global] Instance exn_class_eq_dec : EqDecision exn_class.
Proof. solve_decision. Defined.
#[global] Instance exn_eq_dec : EqDecision exn.
Proof. solve_decision. Defined.

Inductive pyresult (A : Type) :=
| Return (a : A)
| Raise (e : exn).
Arguments Return {A} a.
Arguments Raise {A} e.

#[global] Instance pyresult_ret : MRet pyresult := λ A a, Return a.
#[global] Instance pyresult_bind : MBind pyresult := λ A B k r,
  match r with
  | Return a => k a
  | Raise e => Raise e
  end.

#[global] Instance pyresult_fmap : FMap pyresult := λ A B f r,
  match r with
  | Return a => Return (f a)
  | Raise e => Raise e
  end.

(** [util.parse_address] gives a host and a port or the path of a socket. *)
Inductive address :=
| TCP (host : string) (port : Z)
| Unix (path : string).

(** What the module asks of the system and of [gunicorn.util]. *)
Record OS := {
  geteuid : Z;
  getegid : Z;
  (** [pwd.getpwnam(name).pw_uid]; [None] is its KeyError *)
  getpwnam : string → option Z;
  (** [grp.getgrnam(name).gr_gid] *)
  getgrnam : string → option Z;
  (** [util.load_worker_class(uri)], then [setup()] when the class has
      one: the name of the class loaded *)
  load_worker_class : pyval → pyresult string;
  (** [util.parse_address(util.to_bytestring(bind))] *)
  parse_address : pyval → pyresult address;
  (** [str] of a function or instance (it shows a memory address) *)
  str_of_object : pyval → string;
}.

(** [str(val)], which ["%s" % val] inserts. *)
Definition pystr (os : OS) (v : pyval) : string :=
  match v with
  | VNone => "None"
  | VBool true => "True"
  | VBool false => "False"
  | VInt n => PyStr.of_int n
  | VStr s => s
  | VFunc _ | VObj _ => str_of_object os v
  end.

(** [callable(val)] *)
Definition callable (v : pyval) : bool :=
  match v with VFunc _ => true | _ => false end.

(** ** The validators *)

Section Validators.
Context (os : OS).

Definition validate_bool (val : pyval) : pyresult pyval :=
  match val with
  | VBool b => Return (VBool b)
  | VStr s =>
      if String.eqb (PyStr.strip (PyStr.lower s)) "true" then Return (VBool true)
      else if String.eqb (PyStr.strip (PyStr.lower s)) "false" then Return (VBool false)
      else Raise (Raised ValueError ("Invalid boolean: " +:+ s))
  | _ => Raise (Raised TypeError ("Invalid type for casting: " +:+ pystr os val))
  end.

(** The first statement of [validate_pos_int]: the integer the input is
    taken for.  [int(val, 0)] refuses what is not a string. *)
Definition pos_int_coerce (val : pyval) : pyresult Z :=
  match val with
  | VInt n => Return n
  | VBool b => Return (if b then 1 else 0)
  | VStr s =>
      match PyStr.int_base0 s with
      | Some n => Return n
      | None => Raise (Interp ValueError)
      end
  | _ => Raise (Interp TypeError)
  end.

Definition validate_pos_int (val : pyval) : pyresult pyval :=
  n ← pos_int_coerce val;
  if (n <? 0)%Z then Raise (Raised ValueError ("Value must be positive: " +:+ PyStr.of_int n))
  else Return (VInt n).

Definition validate_string (val : pyval) : pyresult pyval :=
  match val with
  | VNone => Return VNone
  | VStr s => Return (VStr (PyStr.strip s))
  | _ => Raise (Raised TypeError ("Not a string: " +:+ pystr os val))
  end.

Definition validate_callable (arity : nat) (val : pyval) : pyresult pyval :=
  match val with
  | VFunc f =>
      if decide (arity = length (func_args f)) then Return val
      else Raise (Raised TypeError
                    ("Value must have an arity of: " +:+ PyStr.of_int (Z.of_nat arity)))
  | _ => Raise (Raised TypeError ("Value is not callable: " +:+ pystr os val))
  end.

(** In [val.isdigit() or isinstance(val, int)] the method is looked up
    first and only strings have it; for a string the second test is
    false. *)
Definition validate_user (val : pyval) : pyresult pyval :=
  match val with
  | VNone => Return (VInt (geteuid os))
  | VStr s =>
      if PyStr.isdigit s then Return (VInt (PyStr.int_decimal s))
      else match getpwnam os s with
           | Some uid => Return (VInt uid)
           | None => Raise (Raised ConfigError ("No such user: '" +:+ s +:+ "'"))
           end
  | _ => Raise (Interp AttributeError)
  end.

Definition validate_group (val : pyval) : pyresult pyval :=
  match val with
  | VNone => Return (VInt (getegid os))
  | VStr s =>
      if PyStr.isdigit s then Return (VInt (PyStr.int_decimal s))
      else match getgrnam os s with
           | Some gid => Return (VInt gid)
           | None => Raise (Raised ConfigError ("No such group: '" +:+ s +:+ "'"))
           end
  | _ => Raise (Interp AttributeError)
  end.

End Validators.

(** The functions of the module that a class body names as its
    [validator]; [ValidateCallable n] is the closure that
    [validate_callable(n)] returns. *)
Inductive validator_ref :=
| ValidateBool
| ValidatePosInt
| ValidateString
| ValidateCallable (arity : nat)
| ValidateUser
| ValidateGroup.

#[global] Instance validator_ref_eq_dec : EqDecision validator_ref.
Proof. solve_decision. Defined.

(** The call [validator(val)]. *)
Definition call_validator (os : OS) (f : validator_ref) (val : pyval)
  : pyresult pyval :=
  match f with
  | ValidateBool => validate_bool os val
  | ValidatePosInt => validate_pos_int val
  | ValidateString => validate_string os val
  | ValidateCallable arity => validate_callable os arity val
  | ValidateUser => validate_user os val
  | ValidateGroup => validate_group os val
  end.

(** ** Setting classes and their instances *)

(** One call of [parser.add_option]: the positional arguments (the flags)
    and the keyword arguments. *)
Record add_option_call := {
  args : list string;
  kw_dest : string;
  kw_metavar : option string;
  kw_action : string;
  (** [None]: the key was popped *)
  kw_type : option string;
  kw_default : pyval;
  kw_help : string;
}.

(** [x or y] on an attribute that holds a string or None. *)
Definition or_else (x : option string) (y : string) : string :=
  match x with
  | Some (String c s) => String c s
  | _ => y
  end.

(** [x or None] *)
Definition or_None (x : option string) : option string :=
  match x with
  | Some (String c s) => Some (String c s)
  | _ => None
  end.

(** The body of a class statement deriving from [Setting]: the [attrs]
    that [SettingMeta.__new__] receives.  [None] in [validator] and [desc]
    means that the body does not bind the name; the other attributes fall
    back on the None of [Setting] ([cli]: an empty list, false as well). *)
Module Attrs.
Record t := {
  name : string;
  section : option string;
  cli : list string;
  meta : option string;
  validator : option validator_ref;
  type : option string;
  action : option string;
  default : pyval;
  desc : option string;
}.
End Attrs.

Module Setting.

(** A setting class, and an instance of it once [value] is set. *)
Record t := {
  name : string;
  value : pyval;
  section : option string;
  cli : list string;
  validator : validator_ref;
  type : option string;
  meta : option string;
  action : option string;
  default : pyval;
  short : string;
  desc : string;
  order : nat;
}.

Definition with_value (self : t) (v : pyval) : t :=
  {| name := name self; value := v; section := section self;
     cli := cli self; validator := validator self; type := type self;
     meta := meta self; action := action self; default := default self;
     short := short self; desc := desc self; order := order self |}.

Definition get (self : t) : pyval := value self.

(** The validator was wrapped by [wrap_method], so the assertion on
    [callable(self.validator)] passes. *)
Definition set (os : OS) (self : t) (val : pyval) : pyresult t :=
  v ← call_validator os (validator self) val;
  mret (with_value self v).

(** [__init__], on a new instance of the class [cls]. *)
Definition init (os : OS) (cls : t) : pyresult t :=
  if decide (default cls = VNone) then mret cls
  else set os cls (default cls).

Definition copy (self : t) : t := self.

(** [parser] is the list of the options added so far. *)
Definition add_option (os : OS) (self : t) (parser : list add_option_call)
  : list add_option_call :=
  match cli self with
  | [] => parser
  | flags =>
      let action := or_else (action self) "store" in
      parser ++
      [{| args := flags;
          kw_dest := name self;
          kw_metavar := or_None (meta self);
          kw_action := action;
          kw_type := if decide (action = "store")
                     then Some (or_else (type self) "string") else None;
          kw_default := VNone;
          kw_help := short self +:+ " [" +:+ pystr os (default self) +:+ "]" |}]
  end.

End Setting.

Module SettingMeta.

(** [fmt_desc] gives the attributes [desc] and [short] of the class. *)
Definition fmt_desc (desc : string) : pyresult (string * string) :=
  let desc := PyStr.strip (PyStr.dedent desc) in
  match PyStr.splitlines desc with
  | first :: _ => mret (desc, first)
  | [] => Raise (Interp IndexError)
  end.

(** [__new__] for a class that derives from [Setting]: the new class
    and [KNOWN_SETTINGS] after the call. *)
Definition new (attrs : Attrs.t) (KNOWN_SETTINGS : list Setting.t)
  : pyresult (Setting.t * list Setting.t) :=
  let order := length KNOWN_SETTINGS in
  match Attrs.validator attrs with
  | None => Raise (Interp KeyError)
  | Some validator =>
      ds ← fmt_desc (default "" (Attrs.desc attrs));
      let new_class :=
        {| Setting.name := Attrs.name attrs;
           Setting.value := VNone;
           Setting.section := Attrs.section attrs;
           Setting.cli := Attrs.cli attrs;
           Setting.validator := validator;
           Setting.type := Attrs.type attrs;
           Setting.meta := Attrs.meta attrs;
           Setting.action := Attrs.action attrs;
           Setting.default := Attrs.default attrs;
           Setting.short := ds.2;
           Setting.desc := ds.1;
           Setting.order := order |} in
      mret (new_class, KNOWN_SETTINGS ++ [new_class])
  end.

End SettingMeta.

(** The class statements of a module, run in order from a given
    [KNOWN_SETTINGS]; the first that raises ends the import. *)
Fixpoint declare (bodies : list Attrs.t) (KNOWN_SETTINGS : list Setting.t)
  : pyresult (list Setting.t) :=
  match bodies with
  | [] => mret KNOWN_SETTINGS
  | attrs :: rest =>
      r ← SettingMeta.new attrs KNOWN_SETTINGS;
      declare rest r.2
  end.

(** The states of [KNOWN_SETTINGS]: empty when the module is loaded, and
    changed by [SettingMeta.__new__] alone. *)
Inductive registry : list Setting.t → Prop :=
| registry_empty : registry []
| registry_new attrs ks cls ks' :
    registry ks →
    SettingMeta.new attrs ks = Return (cls, ks') →
    registry ks'.

Fixpoint make_settings_from (os : OS) (ignore : list string)
  (KNOWN_SETTINGS : list Setting.t) (settings : gmap string Setting.t)
  : pyresult (gmap string Setting.t) :=
  match KNOWN_SETTINGS with
  | [] => mret settings
  | s :: rest =>
      setting ← Setting.init os s;
      if bool_decide (Setting.name setting ∈ ignore)
      then make_settings_from os ignore rest settings
      else make_settings_from os ignore rest
             (<[Setting.name setting := Setting.copy setting]> settings)
  end.

Definition make_settings (os : OS) (KNOWN_SETTINGS : list Setting.t)
  (ignore : list string) : pyresult (gmap string Setting.t) :=
  make_settings_from os ignore KNOWN_SETTINGS ∅.

(** ** list.sort(key=...)

    The keys of [Config.parser] are pairs of a section and an order.
    Python compares tuples on the first component in which they differ;
    None comes before every string and strings compare byte by byte.  The
    sort is stable: of two entries neither of whose keys is below the
    other, the one that came first stays first. *)

Definition sort_key : Type := option string * nat.

Definition section_le (a b : option string) : Prop :=
  match a, b with
  | None, _ => True
  | Some _, None => False
  | Some x, Some y => String.le x y
  end.

(** [not (k2 < k1)] *)
Definition key_le (k1 k2 : sort_key) : Prop :=
  if decide (k1.1 = k2.1) then (k1.2 ≤ k2.2)%nat else section_le k1.1 k2.1.

#[global] Instance section_le_dec : RelDecision section_le.
Proof. intros [a|] [b|]; simpl; apply _. Defined.
#[global] Instance key_le_dec : RelDecision key_le.
Proof. intros k1 k2. unfold key_le. destruct (decide (k1.1 = k2.1)); apply _. Defined.

Section Sort.
Context {A : Type}.

Fixpoint insert_by_key (x : sort_key * A) (l : list (sort_key * A))
  : list (sort_key * A) :=
  match l with
  | [] => [x]
  | y :: l' =>
      if decide (key_le x.1 y.1) then x :: y :: l'
      else y :: insert_by_key x l'
  end.

Fixpoint sort_by_key (l : list (sort_key * A)) : list (sort_key * A) :=
  match l with
  | [] => []
  | x :: l' => insert_by_key x (sort_by_key l')
  end.
End Sort.

(** ** The configuration object *)

Module Config.

(** What the attribute [settings] of the instance holds: the dictionary
    of [make_settings], or whatever was assigned to it since. *)
Inductive settings_attr :=
| Dict (d : gmap string Setting.t)
| Other (v : pyval).

(** An instance: [settings], and the rest of its [__dict__]. *)
Record t := {
  settings : settings_attr;
  dict : gmap string pyval;
}.

(** What reading an attribute gives. *)
Inductive attr :=
| AVal (v : pyval)
| ASettings (s : settings_attr)
| AWorkerClass (cls : string)
| AAddress (a : address)
(** a method, or an attribute that [object] or the class supplies *)
| AClassAttr (name : string).

(** What a call that can change the instance leaves behind: the
    exception it raised, if it raised one, and the instance after it. *)
Record outcome := Outcome { raised : option exn; after : t }.

(** [name in self.settings] *)
Definition contains (s : settings_attr) (name : string) : pyresult bool :=
  match s with
  | Dict d => mret (bool_decide (is_Some (d !! name)))
  | Other (VStr str) => mret (PyStr.contains name str)
  | Other _ => Raise (Interp TypeError)
  end.

(** [self.settings[name]] *)
Definition getitem (s : settings_attr) (name : string) : pyresult Setting.t :=
  match s with
  | Dict d =>
      match d !! name with
      | Some setting => mret setting
      | None => Raise (Interp KeyError)
      end
  | Other _ => Raise (Interp TypeError)
  end.

(** The setting objects are mutated in place: [setting] is what the
    object under [name] has become. *)
Definition store (self : t) (name : string) (setting : Setting.t) : t :=
  match settings self with
  | Dict d => {| settings := Dict (<[name := setting]> d); dict := dict self |}
  | Other _ => self
  end.

Definition no_setting (name : string) : exn :=
  Raised AttributeError ("No configuration setting for: " +:+ name).

Definition invalid_access : exn := Raised AttributeError "Invalid access!".

(** [__getattr__], which Python calls when the ordinary lookup of
    [name] found nothing. *)
Definition getattr (self : t) (name : string) : pyresult pyval :=
  found ← contains (settings self) name;
  if (found : bool) then
    setting ← getitem (settings self) name;
    mret (Setting.get setting)
  else Raise (no_setting name).

(** The properties of the class. *)
Inductive property :=
| worker_class_p | workers_p | address_p | uid_p | gid_p | proc_name_p.

Definition property_of (name : string) : option property :=
  if decide (name = "worker_class") then Some worker_class_p
  else if decide (name = "workers") then Some workers_p
  else if decide (name = "address") then Some address_p
  else if decide (name = "uid") then Some uid_p
  else if decide (name = "gid") then Some gid_p
  else if decide (name = "proc_name") then Some proc_name_p
  else None.

Section WithOS.
Context (os : OS).

Definition worker_class (self : t) : pyresult attr :=
  s ← getitem (settings self) "worker_class";
  cls ← load_worker_class os (Setting.get s);
  mret (AWorkerClass cls).

Definition workers (self : t) : pyresult attr :=
  s ← getitem (settings self) "workers";
  mret (AVal (Setting.get s)).

Definition address (self : t) : pyresult attr :=
  s ← getitem (settings self) "bind";
  a ← parse_address os (Setting.get s);
  mret (AAddress a).

Definition uid (self : t) : pyresult attr :=
  s ← getitem (settings self) "user";
  mret (AVal (Setting.get s)).

Definition gid (self : t) : pyresult attr :=
  s ← getitem (settings self) "group";
  mret (AVal (Setting.get s)).

Definition proc_name (self : t) : pyresult attr :=
  s ← getitem (settings self) "proc_name";
  match Setting.get s with
  | VNone =>
      d ← getitem (settings self) "default_proc_name";
      mret (AVal (Setting.get d))
  | pn => mret (AVal pn)
  end.

Definition fget (p : property) (self : t) : pyresult attr :=
  match p with
  | worker_class_p => worker_class self
  | workers_p => workers self
  | address_p => address self
  | uid_p => uid self
  | gid_p => gid self
  | proc_name_p => proc_name self
  end.

End WithOS.

(** The three attributes every instance has from [object] and from the
    class being an ordinary one; they are data descriptors. *)
Definition object_slots : list string :=
  ["__class__"; "__dict__"; "__weakref__"].

(** The other names bound in the class body. *)
Definition class_body : list string :=
  ["__init__"; "__getattr__"; "__setattr__"; "set"; "parser";
   "__module__"; "__doc__"].

(** The attributes of [object] (Python 2.6 and 2.7). *)
Definition object_attrs : list string :=
  ["__delattr__"; "__format__"; "__getattribute__"; "__hash__"; "__new__";
   "__reduce__"; "__reduce_ex__"; "__repr__"; "__sizeof__"; "__str__";
   "__subclasshook__"].

Definition class_attr (name : string) : bool :=
  bool_decide (name ∈ class_body ++ object_attrs).

(** [object.__setattr__]: a property without a setter and the three
    slots refuse the values of [pyval] (none of which is a class or a
    dictionary); any other name is bound in the instance. *)
Definition object_setattr (self : t) (name : string) (val : pyval) : outcome :=
  match property_of name with
  | Some _ => Outcome (Some (Interp AttributeError)) self
  | None =>
      if decide (name = "__weakref__")
      then Outcome (Some (Interp AttributeError)) self
      else if bool_decide (name ∈ object_slots)
      then Outcome (Some (Interp TypeError)) self
      else if decide (name = "settings")
      then Outcome None {| settings := Other val; dict := dict self |}
      else Outcome None {| settings := settings self;
                           dict := <[name := val]> (dict self) |}
  end.

(** [__setattr__] *)
Definition setattr (self : t) (name : string) (val : pyval) : outcome :=
  if decide (name = "settings") then object_setattr self name val
  else
    match contains (settings self) name with
    | Return true => Outcome (Some invalid_access) self
    | Return false => object_setattr self name val
    | Raise e => Outcome (Some e) self
    end.

Section WithOS.
Context (os : OS).

(** Reading [self.name]: the data descriptors of the class, the
    instance, the other attributes of the class, and [__getattr__]
    when these found nothing or a property raised AttributeError. *)
Definition getattribute (self : t) (name : string) : pyresult attr :=
  match property_of name with
  | Some p =>
      match fget os p self with
      | Return a => Return a
      | Raise e =>
          if decide (class_of e = AttributeError)
          then AVal <$> getattr self name
          else Raise e
      end
  | None =>
      if bool_decide (name ∈ object_slots) then mret (AClassAttr name)
      else if decide (name = "settings") then mret (ASettings (settings self))
      else match dict self !! name with
           | Some v => mret (AVal v)
           | None =>
               if class_attr name then mret (AClassAttr name)
               else AVal <$> getattr self name
           end
  end.

(** [__init__]; [KNOWN_SETTINGS] is the global at the time of the
    call.  A constructor that raises gives no instance. *)
Definition init (KNOWN_SETTINGS : list Setting.t) (usage : pyval) : pyresult t :=
  d ← make_settings os KNOWN_SETTINGS [];
  match setattr {| settings := Dict d; dict := ∅ |} "usage" usage with
  | Outcome None self => mret self
  | Outcome (Some e) _ => Raise e
  end.

(** [set]: the one assignment, to [value] of the setting, comes after
    the validator has returned. *)
Definition set (self : t) (name : string) (val : pyval) : outcome :=
  match
    found ← contains (settings self) name;
    if (found : bool) then
      setting ← getitem (settings self) name;
      Setting.set os setting val
    else Raise (no_setting name)
  with
  | Return setting' => Outcome None (store self name setting')
  | Raise e => Outcome (Some e) self
  end.

(** [sorter] *)
Definition sorter (self : t) (k : string) : pyresult sort_key :=
  s ← getitem (settings self) k;
  s' ← getitem (settings self) k;
  mret (Setting.section s, Setting.order s').

Fixpoint decorate (self : t) (keys : list string)
  : pyresult (list (sort_key * string)) :=
  match keys with
  | [] => mret []
  | k :: rest =>
      key ← sorter self k;
      l ← decorate self rest;
      mret ((key, k) :: l)
  end.

Fixpoint add_options (self : t) (keys : list string)
  (parser : list add_option_call) : pyresult (list add_option_call) :=
  match keys with
  | [] => mret parser
  | k :: rest =>
      s ← getitem (settings self) k;
      add_options self rest (Setting.add_option os s parser)
  end.

(** [parser], with [keys] the list that [self.settings.keys()]
    returned: the keys of the dictionary in the order the interpreter
    walks it.  The result is the list of the options added to the new
    [OptionParser], in the order of the calls. *)
Definition parser_of_keys (self : t) (keys : list string)
  : pyresult (list add_option_call) :=
  decorated ← decorate self keys;
  add_options self (map snd (sort_by_key decorated)) [].

Definition keys (self : t) : pyresult (list string) :=
  match settings self with
  | Dict d => mret (map fst (map_to_list d))
  | Other _ => Raise (Interp AttributeError)
  end.

Definition parser (self : t) : pyresult (list add_option_call) :=
  ks ← keys self;
  parser_of_keys self ks.

End WithOS.

End Config.

(** ** The settings of the module *)

Definition dq : string := String "034"%char EmptyString.

Definition ConfigFile : Attrs.t := {|
  Attrs.name := "config";
  Attrs.section := Some "Config File";
  Attrs.cli := ["-c"; "--config"];
  Attrs.meta := Some "FILE";
  Attrs.validator := Some ValidateString;
  Attrs.type := None;
  Attrs.action := None;
  Attrs.default := VNone;
  Attrs.desc := Some "        The path to a Gunicorn config file.
        
        Only has an effect when specified on the command line or as part of an
        application specific configuration.    
        ";
|}.

Definition Bind : Attrs.t := {|
  Attrs.name := "bind";
  Attrs.section := Some "Server Socket";
  Attrs.cli := ["-b"; "--bind"];
  Attrs.meta := Some "ADDRESS";
  Attrs.validator := Some ValidateString;
  Attrs.type := None;
  Attrs.action := None;
  Attrs.default := VStr "127.0.0.1:8000";
  Attrs.desc := Some "        The socket to bind.
        
        A string of the form: 'HOST', 'HOST:PORT', 'unix:PATH'. An IP is a valid
        HOST.
        ";
|}.

Definition Backlog : Attrs.t := {|
  Attrs.name := "backlog";
  Attrs.section := Some "Server Socket";
  Attrs.cli := ["--backlog"];
  Attrs.meta := Some "INT";
  Attrs.validator := Some ValidatePosInt;
  Attrs.type := Some "int";
  Attrs.action := None;
  Attrs.default := VInt 2048;
  Attrs.desc := Some "        The maximum number of pending connections.    
        
        This refers to the number of clients that can be waiting to be served.
        Exceeding this number results in the client getting an error when
        attempting to connect. It should only affect servers under significant
        load.
        
        Must be a positive integer. Generally set in the 64-2048 range.    
        ";
|}.

Definition Workers : Attrs.t := {|
  Attrs.name := "workers";
  Attrs.section := Some "Worker Processes";
  Attrs.cli := ["-w"; "--workers"];
  Attrs.meta := Some "INT";
  Attrs.validator := Some ValidatePosInt;
  Attrs.type := Some "int";
  Attrs.action := None;
  Attrs.default := VInt 1;
  Attrs.desc := Some "        The number of worker process for handling requests.
        
        A positive integer generally in the 2-4 x $(NUM_CORES) range. You'll
        want to vary this a bit to find the best for your particular
        application's work load.
        ";
|}.

Definition WorkerClass : Attrs.t := {|
  Attrs.name := "worker_class";
  Attrs.section := Some "Worker Processes";
  Attrs.cli := ["-k"; "--worker-class"];
  Attrs.meta := Some "STRING";
  Attrs.validator := Some ValidateString;
  Attrs.type := None;
  Attrs.action := None;
  Attrs.default := VStr "sync";
  Attrs.desc := Some "        The type of workers to use.
        
        The default class (sync) should handle most 'normal' types of workloads.
        You'll want to read http://gunicorn.org/design.html for information on
        when you might want to choose one of the other worker classes.
        
        A string referring to one of the following bundled classes:
        
        * ``sync``
        * ``eventlet`` - Requires eventlet >= 0.9.7
        * ``gevent``   - Requires gevent >= 0.12.2 (?)
        * ``tornado``  - Requires tornado >= 0.2
        
        Optionally, you can provide your own worker by giving gunicorn a
        MODULE:CLASS pair where CLASS is a subclass of
        gunicorn.workers.base.Worker. This alternative syntax will load the
        gevent class: ``egg:gunicorn#gevent``
        ";
|}.

Definition WorkerConnections : Attrs.t := {|
  Attrs.name := "worker_connections";
  Attrs.section := Some "Worker Processes";
  Attrs.cli := ["--worker-connections"];
  Attrs.meta := Some "INT";
  Attrs.validator := Some ValidatePosInt;
  Attrs.type := Some "int";
  Attrs.action := None;
  Attrs.default := VInt 1000;
  Attrs.desc := Some "        The maximum number of simultaneous clients.
        
        This setting only affects the Eventlet and Gevent worker types.
        ";
|}.

Definition MaxRequests : Attrs.t := {|
  Attrs.name := "max_requests";
  Attrs.section := Some "Worker Processes";
  Attrs.cli := ["--max-requests"];
  Attrs.meta := Some "INT";
  Attrs.validator := Some ValidatePosInt;
  Attrs.type := Some "int";
  Attrs.action := None;
  Attrs.default := VInt 0;
  Attrs.desc := Some "        The maximum number of requests a worker will process before restarting.
        
        Any value greater than zero will limit the number of requests a work
        will process before automatically restarting. This is a simple method
        to help limit the damage of memory leaks.
        
        If this is set to zero (the default) then the automatic worker
        restarts are disabled.
        ";
|}.

Definition Timeout : Attrs.t := {|
  Attrs.name := "timeout";
  Attrs.section := Some "Worker Processes";
  Attrs.cli := ["-t"; "--timeout"];
  Attrs.meta := Some "INT";
  Attrs.validator := Some ValidatePosInt;
  Attrs.type := Some "int";
  Attrs.action := None;
  Attrs.default := VInt 30;
  Attrs.desc := Some "        Workers silent for more than this many seconds are killed and restarted.
        
        Generally set to thirty seconds. Only set this noticeably higher if
        you're sure of the repercussions for sync workers. For the non sync
        workers it just means that the worker process is still communicating and
        is not tied to the length of time required to handle a single request.
        ";
|}.

Definition Keepalive : Attrs.t := {|
  Attrs.name := "keepalive";
  Attrs.section := Some "Worker Processes";
  Attrs.cli := ["--keep-alive"];
  Attrs.meta := Some "INT";
  Attrs.validator := Some ValidatePosInt;
  Attrs.type := Some "int";
  Attrs.action := None;
  Attrs.default := VInt 2;
  Attrs.desc := Some "        The number of seconds to wait for requests on a Keep-Alive connection.
        
        Generally set in the 1-5 seconds range.    
        ";
|}.

Definition Debug : Attrs.t := {|
  Attrs.name := "debug";
  Attrs.section := Some "Debugging";
  Attrs.cli := ["--debug"];
  Attrs.meta := None;
  Attrs.validator := Some ValidateBool;
  Attrs.type := None;
  Attrs.action := Some "store_true";
  Attrs.default := VBool false;
  Attrs.desc := Some "        Turn on debugging in the server.
        
        This limits the number of worker processes to 1 and changes some error
        handling that's sent to clients.
        ";
|}.

Definition Spew : Attrs.t := {|
  Attrs.name := "spew";
  Attrs.section := Some "Debugging";
  Attrs.cli := ["--spew"];
  Attrs.meta := None;
  Attrs.validator := Some ValidateBool;
  Attrs.type := None;
  Attrs.action := Some "store_true";
  Attrs.default := VBool false;
  Attrs.desc := Some "        Install a trace function that spews every line executed by the server.
        
        This is the nuclear option.    
        ";
|}.

Definition PreloadApp : Attrs.t := {|
  Attrs.name := "preload_app";
  Attrs.section := Some "Server Mechanics";
  Attrs.cli := ["--preload"];
  Attrs.meta := None;
  Attrs.validator := Some ValidateBool;
  Attrs.type := None;
  Attrs.action := Some "store_true";
  Attrs.default := VBool false;
  Attrs.desc := Some "        Load application code before the worker processes are forked.
        
        By preloading an application you can save some RAM resources as well as
        speed up server boot times. Although, if you defer application loading
        to each worker process, you can reload your application code easily by
        restarting workers.
        ";
|}.

Definition Daemon : Attrs.t := {|
  Attrs.name := "daemon";
  Attrs.section := Some "Server Mechanics";
  Attrs.cli := ["-D"; "--daemon"];
  Attrs.meta := None;
  Attrs.validator := Some ValidateBool;
  Attrs.type := None;
  Attrs.action := Some "store_true";
  Attrs.default := VBool false;
  Attrs.desc := Some "        Daemonize the Gunicorn process.
        
        Detaches the server from the controlling terminal and enters the
        background.
        ";
|}.

Definition Pidfile : Attrs.t := {|
  Attrs.name := "pidfile";
  Attrs.section := Some "Server Mechanics";
  Attrs.cli := ["-p"; "--pid"];
  Attrs.meta := Some "FILE";
  Attrs.validator := Some ValidateString;
  Attrs.type := None;
  Attrs.action := None;
  Attrs.default := VNone;
  Attrs.desc := Some "        A filename to use for the PID file.
        
        If not set, no PID file will be written.
        ";
|}.

Definition User : Attrs.t := {|
  Attrs.name := "user";
  Attrs.section := Some "Server Mechanics";
  Attrs.cli := ["-u"; "--user"];
  Attrs.meta := Some "USER";
  Attrs.validator := Some ValidateUser;
  Attrs.type := None;
  Attrs.action := None;
  Attrs.default := VNone;
  Attrs.desc := Some "        Switch worker processes to run as this user.
        
        A valid user id (as an integer) or the name of a user that can be
        retrieved with a call to pwd.getpwnam(value) or None to not change
        the worker process user.
        ";
|}.

Definition Group : Attrs.t := {|
  Attrs.name := "group";
  Attrs.section := Some "Server Mechanics";
  Attrs.cli := ["-g"; "--group"];
  Attrs.meta := Some "GROUP";
  Attrs.validator := Some ValidateGroup;
  Attrs.type := None;
  Attrs.action := None;
  Attrs.default := VNone;
  Attrs.desc := Some "        Switch worker process to run as this group.
        
        A valid group id (as an integer) or the name of a user that can be
        retrieved with a call to pwd.getgrnam(value) or None to not change
        the worker processes group.
        ";
|}.

Definition Umask : Attrs.t := {|
  Attrs.name := "umask";
  Attrs.section := Some "Server Mechanics";
  Attrs.cli := ["-m"; "--umask"];
  Attrs.meta := Some "INT";
  Attrs.validator := Some ValidatePosInt;
  Attrs.type := Some "int";
  Attrs.action := None;
  Attrs.default := VInt 0;
  Attrs.desc := Some ("        A bit mask for the file mode on files written by Gunicorn.
        
        Note that this affects unix socket permissions.
        
        A valid value for the os.umask(mode) call or a string compatible with
        int(value, 0) (0 means Python guesses the base, so values like " +:+ dq +:+ "0" +:+ dq +:+ ",
        " +:+ dq +:+ "0xFF" +:+ dq +:+ ", " +:+ dq +:+ "0022" +:+ dq +:+ " are valid for decimal, hex, and octal representations)
        ");
|}.

Definition TmpUploadDir : Attrs.t := {|
  Attrs.name := "tmp_upload_dir";
  Attrs.section := Some "Server Mechanics";
  Attrs.cli := [];
  Attrs.meta := Some "DIR";
  Attrs.validator := Some ValidateString;
  Attrs.type := None;
  Attrs.action := None;
  Attrs.default := VNone;
  Attrs.desc := Some "        Directory to store temporary request data as they are read.
        
        This may disappear in the near future.
        
        This path should be writable by the process permissions set for Gunicorn
        workers. If not specified, Gunicorn will choose a system generated
        temporary directory.
        ";
|}.

Definition Logfile : Attrs.t := {|
  Attrs.name := "logfile";
  Attrs.section := Some "Logging";
  Attrs.cli := ["--log-file"];
  Attrs.meta := Some "FILE";
  Attrs.validator := Some ValidateString;
  Attrs.type := None;
  Attrs.action := None;
  Attrs.default := VStr "-";
  Attrs.desc := Some ("        The log file to write to.
        
        " +:+ dq +:+ "-" +:+ dq +:+ " means log to stdout.
        ");
|}.

Definition Loglevel : Attrs.t := {|
  Attrs.name := "loglevel";
  Attrs.section := Some "Logging";
  Attrs.cli := ["--log-level"];
  Attrs.meta := Some "LEVEL";
  Attrs.validator := Some ValidateString;
  Attrs.type := None;
  Attrs.action := None;
  Attrs.default := VStr "info";
  Attrs.desc := Some "        The granularity of log outputs.
        
        Valid level names are:
        
        * debug
        * info
        * warning
        * error
        * critical
        ";
|}.

Definition LogConfig : Attrs.t := {|
  Attrs.name := "logconfig";
  Attrs.section := Some "Logging";
  Attrs.cli := ["--log-config"];
  Attrs.meta := Some "FILE";
  Attrs.validator := Some ValidateString;
  Attrs.type := None;
  Attrs.action := None;
  Attrs.default := VNone;
  Attrs.desc := Some "        The log config file to use.
        
        Gunicorn uses the standard Python logging module's Configuration
        file format.
        ";
|}.

Definition Procname : Attrs.t := {|
  Attrs.name := "proc_name";
  Attrs.section := Some "Process Naming";
  Attrs.cli := ["-n"; "--name"];
  Attrs.meta := Some "STRING";
  Attrs.validator := Some ValidateString;
  Attrs.type := None;
  Attrs.action := None;
  Attrs.default := VNone;
  Attrs.desc := Some "        A base to use with setproctitle for process naming.
        
        This affects things like ``ps`` and ``top``. If you're going to be
        running more than one instance of Gunicorn you'll probably want to set a
        name to tell them apart. This requires that you install the setproctitle
        module.
        
        It defaults to 'gunicorn'.
        ";
|}.

Definition DefaultProcName : Attrs.t := {|
  Attrs.name := "default_proc_name";
  Attrs.section := Some "Process Naming";
  Attrs.cli := [];
  Attrs.meta := None;
  Attrs.validator := Some ValidateString;
  Attrs.type := None;
  Attrs.action := None;
  Attrs.default := VStr "gunicorn";
  Attrs.desc := Some "        Internal setting that is adjusted for each type of application.
        ";
|}.

Definition WhenReady : Attrs.t := {|
  Attrs.name := "when_ready";
  Attrs.section := Some "Server Hooks";
  Attrs.cli := [];
  Attrs.meta := None;
  Attrs.validator := Some (ValidateCallable 1);
  Attrs.type := Some "callable";
  Attrs.action := None;
  Attrs.default := VFunc (PyFunc "def_start_server" ["server"]);
  Attrs.desc := Some "        Called just after the server is started.
        
        The callable needs to accept a single instance variable for the Arbiter.
        ";
|}.

Definition Prefork : Attrs.t := {|
  Attrs.name := "pre_fork";
  Attrs.section := Some "Server Hooks";
  Attrs.cli := [];
  Attrs.meta := None;
  Attrs.validator := Some (ValidateCallable 2);
  Attrs.type := Some "callable";
  Attrs.action := None;
  Attrs.default := VFunc (PyFunc "def_pre_fork" ["server"; "worker"]);
  Attrs.desc := Some "        Called just before a worker is forked.
        
        The callable needs to accept two instance variables for the Arbiter and
        new Worker.
        ";
|}.

Definition Postfork : Attrs.t := {|
  Attrs.name := "post_fork";
  Attrs.section := Some "Server Hooks";
  Attrs.cli := [];
  Attrs.meta := None;
  Attrs.validator := Some (ValidateCallable 2);
  Attrs.type := Some "callable";
  Attrs.action := None;
  Attrs.default := VFunc (PyFunc "def_post_fork" ["server"; "worker"]);
  Attrs.desc := Some "        Called just after a worker has been forked.
        
        The callable needs to accept two instance variables for the Arbiter and
        new Worker.
        ";
|}.

Definition PreExec : Attrs.t := {|
  Attrs.name := "pre_exec";
  Attrs.section := Some "Server Hooks";
  Attrs.cli := [];
  Attrs.meta := None;
  Attrs.validator := Some (ValidateCallable 1);
  Attrs.type := Some "callable";
  Attrs.action := None;
  Attrs.default := VFunc (PyFunc "def_pre_exec" ["server"]);
  Attrs.desc := Some "        Called just before a new master process is forked.
        
        The callable needs to accept a single instance variable for the Arbiter.
        ";
|}.

Definition PreRequest : Attrs.t := {|
  Attrs.name := "pre_request";
  Attrs.section := Some "Server Hooks";
  Attrs.cli := [];
  Attrs.meta := None;
  Attrs.validator := Some (ValidateCallable 2);
  Attrs.type := Some "callable";
  Attrs.action := None;
  Attrs.default := VFunc (PyFunc "def_pre_request" ["worker"; "req"]);
  Attrs.desc := Some "        Called just before a worker processes the request.
        
        The callable needs to accept two instance variables for the Worker and
        the Request.
        ";
|}.

Definition PostRequest : Attrs.t := {|
  Attrs.name := "post_request";
  Attrs.section := Some "Server Hooks";
  Attrs.cli := [];
  Attrs.meta := None;
  Attrs.validator := Some (ValidateCallable 2);
  Attrs.type := Some "callable";
  Attrs.action := None;
  Attrs.default := VFunc (PyFunc "def_post_request" ["worker"; "req"]);
  Attrs.desc := Some "        Called after a worker processes the request.

        The callable needs to accept two instance variables for the Worker and
        the Request.
        ";
|}.

Definition WorkerExit : Attrs.t := {|
  Attrs.name := "worker_exit";
  Attrs.section := Some "Server Hooks";
  Attrs.cli := [];
  Attrs.meta := None;
  Attrs.validator := Some (ValidateCallable 2);
  Attrs.type := Some "callable";
  Attrs.action := None;
  Attrs.default := VFunc (PyFunc "def_worker_exit" ["server"; "worker"]);
  Attrs.desc := Some "        Called just after a worker has been exited.

        The callable needs to accept two instance variables for the Arbiter and
        the just-exited Worker.
        ";
|}.

(** The class statements of the module, in the order of the file. *)
Definition class_statements : list Attrs.t :=
  [ConfigFile; Bind; Backlog; Workers; WorkerClass;
   WorkerConnections; MaxRequests; Timeout; Keepalive; Debug;
   Spew; PreloadApp; Daemon; Pidfile; User;
   Group; Umask; TmpUploadDir; Logfile; Loglevel;
   LogConfig; Procname; DefaultProcName; WhenReady; Prefork;
   Postfork; PreExec; PreRequest; PostRequest; WorkerExit].

(** [KNOWN_SETTINGS] once the module is imported. *)
Definition KNOWN_SETTINGS : list Setting.t :=
  Eval vm_compute in
  match declare class_statements [] with
  | Return ks => ks
  | Raise _ => []
  end.

(** A process to run the examples in: user 1000 of group 100, on a system
    that knows the user and the group [root]. *)
Definition example_os : OS := {|
  geteuid := 1000;
  getegid := 100;
  getpwnam := λ name, if decide (name = "root") then Some 0 else None;
  getgrnam := λ name, if decide (name = "root") then Some 0 else None;
  load_worker_class := λ uri,
    match uri with
    | VStr "sync" => Return "gunicorn.workers.sync.SyncWorker"
    | _ => Raise (Interp ValueError)
    end;
  parse_address := λ bind,
    match bind with
    | VStr "127.0.0.1:8000" => Return (TCP "127.0.0.1" 8000)
    | _ => Raise (Interp ValueError)
    end;
  str_of_object := λ _, "<object>";
|}.

(** The instances a program can hold: built by [Config()] once the
    class statements of some modules have run, then changed by [set] and
    by assignments to attributes. *)
Inductive reachable (os : OS) : Config.t → Prop :=
| reachable_init ks usage self :
    registry ks →
    Config.init os ks usage = Return self →
    reachable os self
| reachable_set self name val :
    reachable os self →
    reachable os (Config.after (Config.set os self name val))
| reachable_setattr self name val :
    reachable os self →
    reachable os (Config.after (Config.setattr self name val)).

(** What holds of the dictionary of every reachable instance: a setting
    is stored under its name, and no two entries have the same order. *)
Definition settings_wf (d : gmap string Setting.t) : Prop :=
  (∀ k s, d !! k = Some s → Setting.name s = k) ∧
  (∀ k1 k2 s1 s2, d !! k1 = Some s1 → d !! k2 = Some s2 →
     Setting.order s1 = Setting.order s2 → k1 = k2).

(** And of the instance: no attribute bound in it has the name of a
    setting. *)
Definition config_wf (self : Config.t) : Prop :=
  ∀ d, Config.settings self = Config.Dict d →
    settings_wf d ∧ ∀ k, is_Some (Config.dict self !! k) → d !! k = None.

(** The key that [sorter] gives the entry of a setting. *)
Definition key_of (s : Setting.t) : sort_key :=
  (Setting.section s, Setting.order s).

(** A name that the class gives no meaning of its own: no property, no
    slot, not [settings], no method.  Reading it goes through to
    [__getattr__] unless the instance binds it. *)
Definition plain (name : string) : bool :=
  bool_decide (Config.property_of name = None) &&
  bool_decide (name ∉ "settings" :: Config.object_slots) &&
  negb (Config.class_attr name).

(** A name that [object.__setattr__] refuses to bind. *)
Definition read_only (name : string) : bool :=
  bool_decide (is_Some (Config.property_of name)) ||
  bool_decide (name ∈ Config.object_slots).

(** A class statement that some other module could hold: a setting
    called [settings]. *)
Definition SettingsSetting : Attrs.t := {|
  Attrs.name := "settings";
  Attrs.section := Some "Config File";
  Attrs.cli := [];
  Attrs.meta := None;
  Attrs.validator := Some ValidateString;
  Attrs.type := None;
  Attrs.action := None;
  Attrs.default := VStr "a.py";
  Attrs.desc := Some "A second configuration file.";
|}.

(** The dictionary that [make_settings()] returns once the module is
    imported (it is the same in every process, as no default of the module
    makes a validator ask the system). *)
Definition module_settings : gmap string Setting.t :=
  Eval vm_compute in
  match make_settings example_os KNOWN_SETTINGS [] with
  | Return d => d
  | Raise _ => ∅
  end.

(** The instance that [Config(usage)] builds. *)
Definition module_config (usage : pyval) : Config.t :=
  {| Config.settings := Config.Dict module_settings;
     Config.dict := <["usage" := usage]> ∅ |}.

(** [Config()] *)
Definition fresh_config : Config.t := module_config VNone.

(** A documentation text with nothing but white space in it. *)
Definition blank (desc : string) : bool :=
  PyStr.all_space (list_ascii_of_string desc).

(** The order in which [keys.sort(key=sorter)] leaves two entries. *)
Definition by_key {A : Type} : relation (sort_key * A) :=
  λ x y, key_le x.1 y.1.

(** What [sorter] returns for a key of the dictionary [d]. *)
Definition sorter_of (d : gmap string Setting.t) (k : string) : sort_key :=
  match d !! k with
  | Some s => key_of s
  | None => (None, 0%nat)
  end.

(** The options that the settings [l] add to a parser, in this order. *)
Definition options_of (os : OS) (l : list Setting.t) : list add_option_call :=
  concat (map (λ s, Setting.add_option os s []) l).

(** The class registered last under the name [k]: the one whose
    instance [make_settings] leaves in the dictionary. *)
Definition last_named (ks : list Setting.t) (k : string) : option Setting.t :=
  last (filter (λ c, Setting.name c = k) ks).

(** Closed equations on the settings of the module are checked by
    evaluation of both sides. *)
Ltac by_evaluation :=
  lazymatch goal with
  | |- ?a = ?b => vm_cast_no_check (@eq_refl _ b)
  | |- Is_true _ => vm_cast_no_check I
  end.

(** * Properties *)

(** ** The text functions on examples *)

Example int_base0_examples :
  PyStr.int_base0 "0x10" = Some 16 ∧ PyStr.int_base0 "010" = Some 8 ∧
  PyStr.int_base0 "10" = Some 10 ∧ PyStr.int_base0 "-1" = Some (-1) ∧
  PyStr.int_base0 " - 0X1f " = Some (-31) ∧ PyStr.int_base0 "0" = Some 0 ∧
  PyStr.int_base0 "0x" = None ∧ PyStr.int_base0 "09" = None ∧
  PyStr.int_base0 "-" = None ∧ PyStr.int_base0 "0b101" = Some 5 ∧
  PyStr.int_base0 "12a" = None ∧ PyStr.of_int (-42) = "-42".
Proof. repeat split; reflexivity. Qed.

Example dedent_example :
  PyStr.dedent "    a
      b

    c
  " = "a
  b

c
".
Proof. reflexivity. Qed.

(** ** The validators *)

(** C6: [validate_pos_int] takes an integer as it is and a boolean as 0 or
    1, reads a string as [int(val, 0)] does (["0x10"] is 16, ["010"] is 8,
    ["10"] is 10), and raises ValueError exactly when the integer found is
    negative (["-1"] fails, 0 passes). *)
Theorem validate_pos_int_spec :
  (∀ n : Z, validate_pos_int (VInt n) =
     if decide (n < 0)%Z
     then Raise (Raised ValueError ("Value must be positive: " +:+ PyStr.of_int n))
     else Return (VInt n)) ∧
  (∀ b : bool, validate_pos_int (VBool b) = Return (VInt (if b then 1 else 0))) ∧
  (∀ s : string, pos_int_coerce (VStr s) =
     match PyStr.int_base0 s with
     | Some n => Return n
     | None => Raise (Interp ValueError)
     end) ∧
  validate_pos_int (VStr "0x10") = Return (VInt 16) ∧
  validate_pos_int (VStr "010") = Return (VInt 8) ∧
  validate_pos_int (VStr "10") = Return (VInt 10) ∧
  validate_pos_int (VStr "-1") = Raise (Raised ValueError "Value must be positive: -1") ∧
  validate_pos_int (VInt 0) = Return (VInt 0) ∧
  (∀ (val : pyval) (n : Z), pos_int_coerce val = Return n →
     validate_pos_int val =
     if decide (n < 0)%Z
     then Raise (Raised ValueError ("Value must be positive: " +:+ PyStr.of_int n))
     else Return (VInt n)).
Proof.
  assert (Hgen : ∀ (val : pyval) (n : Z), pos_int_coerce val = Return n →
     validate_pos_int val =
     if decide (n < 0)%Z
     then Raise (Raised ValueError ("Value must be positive: " +:+ PyStr.of_int n))
     else Return (VInt n)).
  { intros val n Hc. unfold validate_pos_int. rewrite Hc. simpl.
    destruct (Z.ltb_spec n 0); case_decide; try lia; reflexivity. }
  split_and!; [| intros []; reflexivity | reflexivity.. | exact Hgen].
  intros n. apply Hgen. reflexivity.
Qed.

Lemma validate_pos_int_spec_witness :
  validate_pos_int (VStr " 0o17 ") = Return (VInt 15).
Proof.
  destruct validate_pos_int_spec as (_ & _ & _ & _ & _ & _ & _ & _ & H).
  rewrite (H (VStr " 0o17 ") 15%Z); reflexivity.
Defined.

(** C5, at an integer: [validate_user] asks for [val.isdigit()] before it
    tests [isinstance(val, int)], and an integer has no such method. *)
Theorem validate_user_integer (os : OS) (n : Z) :
  validate_user os (VInt n) = Raise (Interp AttributeError).
Proof. reflexivity. Qed.

(** What [validate_user] does on None and on strings. *)
Lemma validate_user_strings (os : OS) :
  validate_user os VNone = Return (VInt (geteuid os)) ∧
  (∀ s, PyStr.isdigit s = true →
     validate_user os (VStr s) = Return (VInt (PyStr.int_decimal s))) ∧
  (∀ s uid, PyStr.isdigit s = false → getpwnam os s = Some uid →
     validate_user os (VStr s) = Return (VInt uid)) ∧
  (∀ s, PyStr.isdigit s = false → getpwnam os s = None →
     validate_user os (VStr s) =
     Raise (Raised ConfigError ("No such user: '" +:+ s +:+ "'"))).
Proof.
  split_and!; [reflexivity|..].
  - intros s Hd. simpl. by rewrite Hd.
  - intros s uid Hd Hpw. simpl. by rewrite Hd, Hpw.
  - intros s Hd Hpw. simpl. by rewrite Hd, Hpw.
Qed.

Example validate_user_examples :
  validate_user example_os (VStr "0042") = Return (VInt 42) ∧
  validate_user example_os (VStr "root") = Return (VInt 0) ∧
  validate_user example_os (VStr "nobody") =
    Raise (Raised ConfigError "No such user: 'nobody'") ∧
  validate_user example_os (VBool true) = Raise (Interp AttributeError).
Proof. repeat split; reflexivity. Qed.

(** ** White space in the text functions *)

Section Text.
Import PyStr.

Lemma all_space_app l1 l2 : all_space (l1 ++ l2) = all_space l1 && all_space l2.
Proof. apply forallb_app. Qed.

Lemma all_space_rev l : all_space (rev l) = all_space l.
Proof.
  induction l as [|c l IH]; [done|]. simpl.
  rewrite all_space_app, IH. simpl. rewrite andb_true_r. apply andb_comm.
Qed.

Lemma lstrip_nil l : lstrip l = [] ↔ all_space l = true.
Proof.
  induction l as [|c l IH]; simpl; [done|].
  destruct (isspace c); simpl; [done|]. split; discriminate.
Qed.

Lemma lstrip_all_space l : all_space (lstrip l) = all_space l.
Proof. induction l as [|c l IH]; simpl; [done|]. by destruct (isspace c) eqn:E; simpl; rewrite ?E. Qed.

Lemma strip_text_nil l : strip_text l = [] ↔ all_space l = true.
Proof.
  unfold strip_text, rstrip. split.
  - intros H. apply (f_equal (@rev ascii)) in H. rewrite rev_involutive in H.
    simpl in H. apply lstrip_nil in H.
    rewrite all_space_rev, lstrip_all_space in H. done.
  - intros H. apply lstrip_nil in H. by rewrite H.
Qed.

Lemma splitlines_from_cons cur l : cur ≠ [] → splitlines_from cur l ≠ [].
Proof.
  revert cur. induction l as [|c l IH]; intros cur Hcur; simpl.
  - by destruct cur.
  - destruct (Ascii.eqb c nl); [done|].
    destruct (Ascii.eqb c cr).
    + destruct l as [|c' l']; [done|]. by destruct (Ascii.eqb c' nl).
    + by apply IH.
Qed.

Lemma splitlines_text_nil l : splitlines_text l = [] ↔ l = [].
Proof.
  split; [|by intros ->]. destruct l as [|c l]; [done|].
  unfold splitlines_text. simpl.
  destruct (Ascii.eqb c nl); [done|].
  destruct (Ascii.eqb c cr).
  - destruct l as [|c' l']; [done|]. by destruct (Ascii.eqb c' nl).
  - intros H. by apply splitlines_from_cons in H.
Qed.

Lemma is_blank_isspace c : is_blank c = true → isspace c = true.
Proof.
  unfold is_blank. intros [H|H]%orb_true_iff; apply Ascii.eqb_eq in H; by subst.
Qed.

Lemma all_blank_all_space l : forallb is_blank l = true → all_space l = true.
Proof.
  induction l as [|c l IH]; simpl; [done|].
  intros [Hc Hl]%andb_true_iff. by rewrite (is_blank_isspace c Hc), IH.
Qed.

Lemma clear_blank_line_space l : all_space (clear_blank_line l) = all_space l.
Proof.
  unfold clear_blank_line. destruct (forallb is_blank l) eqn:E; [|done].
  symmetry. by apply all_blank_all_space.
Qed.

Lemma split_nl_from_space cur t :
  forallb all_space (split_nl_from cur t) = all_space cur && all_space t.
Proof.
  revert cur. induction t as [|c t IH]; intros cur; simpl.
  - by rewrite all_space_rev, !andb_true_r.
  - destruct (Ascii.eqb_spec c nl) as [->|Hc]; simpl.
    + by rewrite all_space_rev, IH.
    + rewrite IH. simpl. by destruct (isspace c), (all_space cur).
Qed.

Lemma join_nl_space ls : all_space (join_nl ls) = forallb all_space ls.
Proof.
  induction ls as [|l ls IH]; [done|].
  destruct ls as [|l' ls]; simpl in *.
  - by rewrite andb_true_r.
  - by rewrite all_space_app, <- IH.
Qed.

Lemma indent_of_blank l : forallb is_blank (indent_of l) = true.
Proof. induction l as [|c l IH]; simpl; [done|]. by destruct (is_blank c) eqn:E; simpl; rewrite ?E. Qed.

Lemma margin_of_blank margin indents m :
  (∀ m0, margin = Some m0 → forallb is_blank m0 = true) →
  Forall (λ i, forallb is_blank i = true) indents →
  margin_of margin indents = Some m → forallb is_blank m = true.
Proof.
  intros Hm Hi. revert margin Hm.
  induction Hi as [|i indents Hi _ IH]; intros margin Hm; simpl.
  - intros ->. by apply Hm.
  - destruct margin as [m0|].
    + destruct (starts_with m0 i); [apply IH; done|].
      destruct (starts_with i m0); [apply IH; by intros ? [= <-]|].
      by intros [= <-].
    + apply IH. by intros ? [= <-].
Qed.

Lemma starts_with_app m l : starts_with m l = true → l = m ++ drop_prefix m l.
Proof.
  revert l. induction m as [|a m IH]; intros [|b l]; simpl; try done.
  intros [Hab Hm]%andb_true_iff. apply Ascii.eqb_eq in Hab as ->.
  f_equal. by apply IH.
Qed.

Lemma remove_margin_space m l :
  forallb is_blank m = true → all_space (remove_margin m l) = all_space l.
Proof.
  intros Hm. unfold remove_margin. destruct (starts_with m l) eqn:E; [|done].
  rewrite (starts_with_app m l E) at 2.
  by rewrite all_space_app, (all_blank_all_space m Hm).
Qed.

Lemma dedent_text_space t : all_space (dedent_text t) = all_space t.
Proof.
  unfold dedent_text.
  set (lines := map clear_blank_line (split_nl t)).
  assert (Hlines : forallb all_space lines = all_space t).
  { unfold lines, split_nl.
    transitivity (forallb all_space (split_nl_from [] t));
      [|by rewrite split_nl_from_space].
    generalize (split_nl_from [] t). intros ls.
    induction ls as [|l ls IH]; simpl; [done|].
    by rewrite clear_blank_line_space, IH. }
  destruct (margin_of None _) as [[|c m]|] eqn:E;
    rewrite join_nl_space; try done.
  rewrite <- Hlines.
  assert (Hm : forallb is_blank (c :: m) = true).
  { eapply margin_of_blank; [| |exact E]; [done|].
    apply Forall_forall. intros i [l [-> _]]%list_elem_of_fmap.
    apply indent_of_blank. }
  generalize lines. intros ls.
  induction ls as [|l ls IH]; simpl; [done|].
  by rewrite remove_margin_space, IH.
Qed.

End Text.

Lemma list_ascii_of_string_nil s : list_ascii_of_string s = [] ↔ s = EmptyString.
Proof. destruct s; simpl; split; done. Qed.

(** [fmt_desc] finds no first line exactly in a text that is blank. *)
Lemma fmt_desc_blank (desc : string) :
  if blank desc then SettingMeta.fmt_desc desc = Raise (Interp IndexError)
  else ∃ first rest,
      PyStr.splitlines (PyStr.strip (PyStr.dedent desc)) = first :: rest ∧
      SettingMeta.fmt_desc desc = Return (PyStr.strip (PyStr.dedent desc), first).
Proof.
  unfold SettingMeta.fmt_desc.
  assert (Hnil : PyStr.splitlines (PyStr.strip (PyStr.dedent desc)) = [] ↔
                 blank desc = true).
  { unfold PyStr.splitlines, PyStr.strip, PyStr.dedent, blank.
    rewrite !list_ascii_of_string_of_list_ascii.
    rewrite <- (dedent_text_space (list_ascii_of_string desc)).
    rewrite <- strip_text_nil, <- splitlines_text_nil.
    split; [apply map_eq_nil|by intros ->]. }
  cbv zeta. destruct (blank desc).
  - rewrite (proj2 Hnil eq_refl). reflexivity.
  - destruct (PyStr.splitlines _) as [|first rest]; [|by eauto].
    by specialize (proj1 Hnil eq_refl).
Qed.

(** ** Registration *)

(** What a successful [SettingMeta.__new__] has done. *)
Lemma new_Return attrs ks cls ks' :
  SettingMeta.new attrs ks = Return (cls, ks') →
  ks' = ks ++ [cls] ∧
  Setting.order cls = length ks ∧
  Setting.name cls = Attrs.name attrs ∧
  is_Some (Attrs.validator attrs) ∧
  blank (default EmptyString (Attrs.desc attrs)) = false.
Proof.
  unfold SettingMeta.new. destruct (Attrs.validator attrs) as [v|]; [|done].
  pose proof (fmt_desc_blank (default EmptyString (Attrs.desc attrs))) as Hd.
  destruct (blank _).
  - by rewrite Hd.
  - destruct Hd as (first & rest & _ & ->). simpl. intros [= <- <-]. eauto.
Qed.

(** Whether a class statement registers does not depend on what is
    registered already. *)
Lemma new_any_registry attrs ks ks2 :
  match SettingMeta.new attrs ks with
  | Return _ => ∃ cls2, SettingMeta.new attrs ks2 = Return (cls2, ks2 ++ [cls2])
  | Raise e => SettingMeta.new attrs ks2 = Raise e
  end.
Proof.
  unfold SettingMeta.new. destruct (Attrs.validator attrs) as [v|]; [|done].
  destruct (SettingMeta.fmt_desc _) as [[d first]|e]; simpl; eauto.
Qed.

Lemma declare_registry bodies ks ks' :
  registry ks → declare bodies ks = Return ks' → registry ks'.
Proof.
  revert ks. induction bodies as [|attrs bodies IH]; intros ks Hks; simpl.
  - by intros [= <-].
  - destruct (SettingMeta.new attrs ks) as [[cls ks1]|e] eqn:E; [|done].
    simpl. apply IH. by eapply registry_new.
Qed.

Lemma KNOWN_SETTINGS_declared :
  declare class_statements [] = Return KNOWN_SETTINGS.
Proof. by_evaluation. Qed.

Lemma KNOWN_SETTINGS_registry : registry KNOWN_SETTINGS.
Proof.
  eapply declare_registry; [apply registry_empty|apply KNOWN_SETTINGS_declared].
Qed.

Lemma registry_orders ks :
  registry ks → map Setting.order ks = seq 0 (length ks).
Proof.
  induction 1 as [|attrs ks cls ks' _ IH Hnew]; [done|].
  apply new_Return in Hnew as (-> & Hord & _).
  rewrite map_app, length_app. simpl.
  by rewrite Nat.add_1_r, seq_S, IH, Hord.
Qed.

Lemma registry_order_lookup ks i s :
  registry ks → ks !! i = Some s → Setting.order s = i.
Proof.
  intros Hks Hi. pose proof (registry_orders ks Hks) as Hseq.
  assert (map Setting.order ks !! i = Some (Setting.order s)) as Hm
    by (by rewrite list_lookup_fmap, Hi).
  rewrite Hseq in Hm. by apply lookup_seq in Hm as [-> _].
Qed.

(** C7: in every state of the registry the order of a setting is its
    position, so the orders are 0, 1, ..., N-1 in the order of
    registration; and the order given to a new class is the size of the
    registry at that moment. *)
Theorem order_is_registration_index (ks : list Setting.t) :
  registry ks →
  map Setting.order ks = seq 0 (length ks) ∧
  (∀ (i : nat) (s : Setting.t), ks !! i = Some s → Setting.order s = i) ∧
  (∀ attrs cls ks', SettingMeta.new attrs ks = Return (cls, ks') →
     Setting.order cls = length ks ∧ ks' = ks ++ [cls]).
Proof.
  intros Hks. pose proof (registry_orders ks Hks) as Hseq. split_and!.
  - done.
  - intros i s Hi. by eapply registry_order_lookup.
  - intros attrs cls ks' Hnew. by apply new_Return in Hnew as (-> & -> & _).
Qed.

Lemma order_is_registration_index_witness :
  map Setting.order KNOWN_SETTINGS = seq 0 30.
Proof.
  exact (proj1 (order_is_registration_index KNOWN_SETTINGS KNOWN_SETTINGS_registry)).
Defined.

(** C1, as the code has it: a class statement is registered or not
    whatever is registered already, so a name can be registered twice;
    what registers is put at the end under the name of its body.  The
    names of the module's own settings are distinct. *)
Theorem registration_ignores_names (attrs : Attrs.t) (ks ks2 : list Setting.t) :
  match SettingMeta.new attrs ks with
  | Return (cls, ks') =>
      ks' = ks ++ [cls] ∧ Setting.name cls = Attrs.name attrs ∧
      ∃ cls2, SettingMeta.new attrs ks2 = Return (cls2, ks2 ++ [cls2])
  | Raise e => SettingMeta.new attrs ks2 = Raise e
  end ∧
  NoDup (map Setting.name KNOWN_SETTINGS).
Proof.
  split.
  - pose proof (new_any_registry attrs ks ks2) as H.
    destruct (SettingMeta.new attrs ks) as [[cls ks']|e] eqn:E; [|done].
    by apply new_Return in E as (-> & _ & -> & _).
  - refine (bool_decide_unpack _ _). by_evaluation.
Qed.

(** C1 fails: with the settings of the module registered, a second class
    statement for ["bind"] is registered as well. *)
Lemma duplicate_name_is_registered :
  ∃ cls ks',
    SettingMeta.new Bind KNOWN_SETTINGS = Return (cls, ks') ∧
    registry ks' ∧
    Setting.name cls = "bind" ∧
    "bind" ∈ map Setting.name KNOWN_SETTINGS ∧
    ¬ NoDup (map Setting.name ks').
Proof.
  destruct (SettingMeta.new Bind KNOWN_SETTINGS) as [[cls ks']|e] eqn:E;
    [|by vm_compute in E].
  exists cls, ks'. split; [done|].
  split; [by eapply registry_new; [apply KNOWN_SETTINGS_registry|]|].
  apply new_Return in E as (-> & _ & Hname & _).
  split; [done|]. split.
  - refine (bool_decide_unpack _ _). by_evaluation.
  - rewrite map_app. simpl. rewrite Hname.
    intros H. apply (bool_decide_pack _) in H. by vm_compute in H.
Qed.

(** C10: a class statement whose documentation is missing, empty or
    blank does not register: [fmt_desc] finds no first line in the text
    and raises IndexError (KeyError comes first when the body binds no
    validator).  A documentation with some text in it has a first line,
    and the class registers when the body binds a validator. *)
Theorem blank_documentation_fails (attrs : Attrs.t) (ks : list Setting.t) :
  if blank (default EmptyString (Attrs.desc attrs))
  then
    SettingMeta.fmt_desc (default EmptyString (Attrs.desc attrs)) = Raise (Interp IndexError) ∧
    SettingMeta.new attrs ks =
      Raise (Interp (if Attrs.validator attrs is Some _ then IndexError else KeyError))
  else
    ∃ first rest,
      PyStr.splitlines (PyStr.strip (PyStr.dedent (default EmptyString (Attrs.desc attrs))))
        = first :: rest ∧
      match Attrs.validator attrs with
      | Some _ => ∃ cls, SettingMeta.new attrs ks = Return (cls, ks ++ [cls]) ∧
                         Setting.short cls = first
      | None => SettingMeta.new attrs ks = Raise (Interp KeyError)
      end.
Proof.
  pose proof (fmt_desc_blank (default EmptyString (Attrs.desc attrs))) as Hd.
  unfold SettingMeta.new. destruct (blank _).
  - split; [done|]. destruct (Attrs.validator attrs); [|done]. by rewrite Hd.
  - destruct Hd as (first & rest & Hl & Hd). exists first, rest. split; [done|].
    destruct (Attrs.validator attrs); [|done]. rewrite Hd. simpl. eauto.
Qed.

Example blank_documentation_examples :
  blank "   
	 " = true ∧
  SettingMeta.fmt_desc "   
	 " = Raise (Interp IndexError) ∧
  SettingMeta.fmt_desc EmptyString = Raise (Interp IndexError) ∧
  SettingMeta.fmt_desc "
      First line.  
      Second line.
   " = Return ("First line.  
Second line.", "First line.  ").
Proof. repeat split; reflexivity. Qed.

Example KNOWN_SETTINGS_names :
  map Setting.name KNOWN_SETTINGS =
  ["config"; "bind"; "backlog"; "workers"; "worker_class";
   "worker_connections"; "max_requests"; "timeout"; "keepalive"; "debug";
   "spew"; "preload_app"; "daemon"; "pidfile"; "user"; "group"; "umask";
   "tmp_upload_dir"; "logfile"; "loglevel"; "logconfig"; "proc_name";
   "default_proc_name"; "when_ready"; "pre_fork"; "post_fork"; "pre_exec";
   "pre_request"; "post_request"; "worker_exit"].
Proof. vm_compute. reflexivity. Qed.

Example KNOWN_SETTINGS_short :
  map Setting.short (take 4 KNOWN_SETTINGS) =
  ["The path to a Gunicorn config file."; "The socket to bind.";
   "The maximum number of pending connections.    ";
   "The number of worker process for handling requests."].
Proof. vm_compute. reflexivity. Qed.

(** ** The configuration object: what every reachable instance satisfies *)

Lemma Setting_set_Return os s val s' :
  Setting.set os s val = Return s' →
  ∃ v, call_validator os (Setting.validator s) val = Return v ∧
       s' = Setting.with_value s v.
Proof.
  unfold Setting.set. destruct (call_validator _ _ _) as [v|e]; [|done].
  intros [= <-]. eauto.
Qed.

Lemma Setting_init_Return os cls s :
  Setting.init os cls = Return s →
  Setting.name s = Setting.name cls ∧ Setting.order s = Setting.order cls.
Proof.
  unfold Setting.init. case_decide; [by intros [= <-]|].
  intros (v & _ & ->)%Setting_set_Return. done.
Qed.

(** The loop of [make_settings]: every entry is stored under its name and
    has the name and the order of a class of the registry. *)
Lemma make_settings_from_entries os ignore all ks m m' :
  ks ⊆ all →
  (∀ k s, m !! k = Some s → Setting.name s = k ∧
     ∃ c, c ∈ all ∧ Setting.name c = k ∧ Setting.order c = Setting.order s) →
  make_settings_from os ignore ks m = Return m' →
  ∀ k s, m' !! k = Some s → Setting.name s = k ∧
     ∃ c, c ∈ all ∧ Setting.name c = k ∧ Setting.order c = Setting.order s.
Proof.
  revert m. induction ks as [|c ks IH]; intros m Hsub Hm; simpl.
  - by intros [= <-].
  - destruct (Setting.init os c) as [s0|e] eqn:Ei; [|done]. simpl.
    apply Setting_init_Return in Ei as [Hn Ho].
    assert (ks ⊆ all) as Hks by (intros x Hx; apply Hsub; by right).
    case_bool_decide; [by apply IH|].
    apply IH; [done|]. intros k s. unfold Setting.copy.
    destruct (decide (Setting.name s0 = k)) as [<-|Hne].
    + rewrite lookup_insert_eq. intros [= <-]. split; [done|].
      exists c. split_and!; [apply Hsub; by left|done..].
    + rewrite lookup_insert_ne by done. apply Hm.
Qed.

Lemma registry_settings_wf os ks ignore d :
  registry ks → make_settings os ks ignore = Return d → settings_wf d.
Proof.
  intros Hks Hd.
  pose proof (make_settings_from_entries os ignore ks ks ∅ d
                (reflexivity _) (λ k s H, False_ind _ (lookup_empty_Some _ _ H)) Hd)
    as Hent.
  split; [intros k s H; by apply Hent in H as [? _]|].
  intros k1 k2 s1 s2 H1 H2 Ho.
  apply Hent in H1 as [_ (c1 & Hc1 & <- & Ho1)].
  apply Hent in H2 as [_ (c2 & Hc2 & <- & Ho2)].
  apply list_elem_of_lookup in Hc1 as [i1 Hi1].
  apply list_elem_of_lookup in Hc2 as [i2 Hi2].
  pose proof (registry_order_lookup _ _ _ Hks Hi1).
  pose proof (registry_order_lookup _ _ _ Hks Hi2).
  assert (i1 = i2) as -> by congruence. congruence.
Qed.

Lemma contains_Dict d name :
  Config.contains (Config.Dict d) name = Return (bool_decide (is_Some (d !! name))).
Proof. done. Qed.

Lemma init_wf os ks usage self :
  registry ks → Config.init os ks usage = Return self → config_wf self.
Proof.
  intros Hks. unfold Config.init.
  destruct (make_settings os ks []) as [d|e] eqn:Ed; [|done]. simpl.
  unfold Config.setattr. simpl. case_bool_decide as Hu; [done|].
  simpl. intros [= <-]. intros d' [= <-]. split.
  - by eapply registry_settings_wf.
  - intros k [v Hk]. simpl in Hk.
    apply lookup_insert_Some in Hk as [[<- _]|[_ Hk]]; [|done].
    by apply eq_None_not_Some.
Qed.

Lemma set_wf os self name val :
  config_wf self → config_wf (Config.after (Config.set os self name val)).
Proof.
  intros Hwf. unfold Config.set.
  destruct (Config.settings self) as [d|v] eqn:Es; simpl.
  - case_bool_decide as Hin; simpl; [|done].
    destruct Hin as [s Hs]. rewrite Hs. simpl.
    destruct (Setting.set os s val) as [s'|e] eqn:E; simpl; [|done].
    apply Setting_set_Return in E as (v & _ & ->).
    unfold Config.store. rewrite Es. intros d' [= <-].
    destruct (Hwf d Es) as [[Hname Hord] Hdict]. split; [split|].
    + intros k s'. destruct (decide (name = k)) as [<-|Hne].
      * rewrite lookup_insert_eq. intros [= <-]. simpl. by apply Hname.
      * rewrite lookup_insert_ne by done. apply Hname.
    + intros k1 k2 s1 s2.
      assert (∀ k s', <[name:=Setting.with_value s v]> d !! k = Some s' →
                ∃ s0, d !! k = Some s0 ∧ Setting.order s0 = Setting.order s') as Hold.
      { intros k s'. destruct (decide (name = k)) as [<-|Hne].
        - rewrite lookup_insert_eq. intros [= <-]. eauto.
        - rewrite lookup_insert_ne by done. eauto. }
      intros (a1 & Ha1 & <-)%Hold (a2 & Ha2 & <-)%Hold. by apply Hord.
    + simpl. intros k Hk. specialize (Hdict k Hk).
      destruct (decide (name = k)) as [<-|Hne]; [congruence|].
      by rewrite lookup_insert_ne.
  - destruct v; simpl; try done; destruct (PyStr.contains name s); done.
Qed.

Lemma setattr_wf self name val :
  config_wf self → config_wf (Config.after (Config.setattr self name val)).
Proof.
  intros Hwf. unfold Config.setattr, Config.object_setattr.
  case_decide as Hs.
  - subst name. simpl. intros d. done.
  - destruct (Config.contains _ _) as [[]|e] eqn:Ec; simpl; try done.
    destruct (Config.property_of name); [done|].
    case_decide; [done|]. case_bool_decide; [done|].
    simpl. intros d Hd. simpl in Hd.
    destruct (Hwf d Hd) as [Hd_wf Hdict]. split; [done|].
    intros k [v Hk]. simpl in Hk.
    apply lookup_insert_Some in Hk as [[<- _]|[_ Hk]]; [|by eauto].
    rewrite Hd, contains_Dict in Ec. injection Ec as Ec.
    apply bool_decide_eq_false in Ec. by apply eq_None_not_Some.
Qed.

Lemma reachable_wf os self : reachable os self → config_wf self.
Proof.
  induction 1; eauto using init_wf, set_wf, setattr_wf.
Qed.

(** ** Reading and writing settings *)

Lemma make_settings_module (os : OS) :
  make_settings os KNOWN_SETTINGS [] = Return module_settings.
Proof. by_evaluation. Qed.

Lemma init_module (os : OS) (usage : pyval) :
  Config.init os KNOWN_SETTINGS usage = Return (module_config usage).
Proof.
  unfold Config.init. rewrite make_settings_module. by_evaluation.
Qed.

Lemma module_config_reachable os usage : reachable os (module_config usage).
Proof.
  eapply reachable_init; [apply KNOWN_SETTINGS_registry|apply init_module].
Qed.

Lemma getattr_Dict self d name :
  Config.settings self = Config.Dict d →
  Config.getattr self name =
  match d !! name with
  | Some s => Return (Setting.get s)
  | None => Raise (Config.no_setting name)
  end.
Proof.
  intros Hd. unfold Config.getattr. rewrite Hd. simpl.
  by destruct (d !! name) as [s|] eqn:E; simpl.
Qed.

(** C4: [set] on a registered name runs the validator of the setting on
    the raw value.  When the validator returns, its result is the value
    held from then on and no other setting changes; when it raises, the
    exception is that of [set] and the instance is as before, so that the
    name still reads as the value held before. *)
Theorem set_runs_validator (os : OS) (self : Config.t)
    (d : gmap string Setting.t) (name : string) (s : Setting.t) (raw : pyval) :
  Config.settings self = Config.Dict d →
  d !! name = Some s →
  match call_validator os (Setting.validator s) raw with
  | Return v =>
      Config.set os self name raw =
        Config.Outcome None
          {| Config.settings := Config.Dict (<[name := Setting.with_value s v]> d);
             Config.dict := Config.dict self |} ∧
      Config.getattr (Config.after (Config.set os self name raw)) name = Return v ∧
      ∀ other, other ≠ name →
        Config.getattr (Config.after (Config.set os self name raw)) other =
        Config.getattr self other
  | Raise e =>
      Config.set os self name raw = Config.Outcome (Some e) self ∧
      Config.getattr (Config.after (Config.set os self name raw)) name =
        Return (Setting.get s)
  end.
Proof.
  intros Hd Hs.
  assert (Hset : Config.set os self name raw =
    match call_validator os (Setting.validator s) raw with
    | Return v => Config.Outcome None (Config.store self name (Setting.with_value s v))
    | Raise e => Config.Outcome (Some e) self
    end).
  { unfold Config.set. rewrite Hd. simpl.
    rewrite bool_decide_eq_true_2 by eauto. simpl. rewrite Hs. simpl.
    unfold Setting.set. by destruct (call_validator _ _ _). }
  rewrite Hset. destruct (call_validator _ _ _) as [v|e]; simpl.
  - unfold Config.store. rewrite Hd. split_and!; [done|..].
    + erewrite getattr_Dict by done. by rewrite lookup_insert_eq.
    + intros other Hne. erewrite !getattr_Dict by done.
      by rewrite lookup_insert_ne.
  - split; [done|]. erewrite getattr_Dict by done. by rewrite Hs.
Qed.

Lemma set_runs_validator_witness :
  Config.getattr
    (Config.after (Config.set example_os fresh_config "workers" (VStr "4")))
    "workers" = Return (VInt 4) ∧
  Config.set example_os fresh_config "workers" (VStr "-4") =
    Config.Outcome (Some (Raised ValueError "Value must be positive: -4"))
      fresh_config.
Proof.
  destruct (module_settings !! "workers") as [s|] eqn:Hs; [|by vm_compute in Hs].
  assert (Hv : Setting.validator s = ValidatePosInt).
  { vm_compute in Hs. by injection Hs as <-. }
  split.
  - pose proof (set_runs_validator example_os fresh_config module_settings
      "workers" s (VStr "4") eq_refl Hs) as H.
    rewrite Hv in H. exact (proj1 (proj2 H)).
  - pose proof (set_runs_validator example_os fresh_config module_settings
      "workers" s (VStr "-4") eq_refl Hs) as H.
    rewrite Hv in H. exact (proj1 H).
Defined.

(** C2 fails: in a new instance [user] holds None, not the effective
    user id. *)
Lemma fresh_user_is_None :
  Config.init example_os KNOWN_SETTINGS VNone = Return fresh_config ∧
  Config.getattr fresh_config "user" = Return VNone ∧
  Config.getattribute example_os fresh_config "uid" = Return (Config.AVal VNone) ∧
  Config.getattr fresh_config "user" ≠ Return (VInt (geteuid example_os)).
Proof.
  split_and!; [apply init_module|by_evaluation..|].
  intros H. by vm_compute in H.
Qed.

(** C2, as the code has it: whatever the process, [Config()] succeeds on
    the settings of the module and [user] then holds None, because
    [Setting.__init__] does not run the validator on a default that is
    None; the effective user id is what [set("user", None)] stores. *)
Theorem fresh_user_unset (os : OS) (usage : pyval) :
  ∃ self : Config.t,
    Config.init os KNOWN_SETTINGS usage = Return self ∧
    Config.getattr self "user" = Return VNone ∧
    Config.getattr (Config.after (Config.set os self "user" VNone)) "user" =
      Return (VInt (geteuid os)).
Proof.
  exists (module_config usage). split; [apply init_module|].
  split; by_evaluation.
Qed.

(** ** Attributes *)

Lemma plain_spec name :
  plain name = true →
  Config.property_of name = None ∧ name ≠ "settings" ∧
  bool_decide (name ∈ Config.object_slots) = false ∧
  Config.class_attr name = false.
Proof.
  unfold plain. intros [[Hp Hs%bool_decide_eq_true]%andb_true_iff Hc]%andb_true_iff.
  apply bool_decide_eq_true in Hp. apply negb_true_iff in Hc.
  split_and!; [done| |apply bool_decide_eq_false|done].
  - intros ->. apply Hs. by left.
  - intros H. apply Hs. by right.
Qed.

(** C3 fails: [proc_name] and [worker_class] are settings of the module
    and properties of the class, and the property is what an attribute
    read finds; [usage] and [uid] are no settings, yet they can be read. *)
Lemma attribute_read_differs :
  Config.getattr fresh_config "proc_name" = Return VNone ∧
  Config.getattribute example_os fresh_config "proc_name" =
    Return (Config.AVal (VStr "gunicorn")) ∧
  Config.getattr fresh_config "worker_class" = Return (VStr "sync") ∧
  Config.getattribute example_os fresh_config "worker_class" =
    Return (Config.AWorkerClass "gunicorn.workers.sync.SyncWorker") ∧
  Config.getattr fresh_config "usage" = Raise (Config.no_setting "usage") ∧
  Config.getattribute example_os fresh_config "usage" = Return (Config.AVal VNone) ∧
  Config.getattr fresh_config "uid" = Raise (Config.no_setting "uid") ∧
  Config.getattribute example_os fresh_config "uid" = Return (Config.AVal VNone).
Proof. split_and!; by_evaluation. Qed.

(** C3, as the code has it.  In a reachable instance whose [settings] is
    still the dictionary: a registered name to which the class gives no
    meaning of its own reads as the value held, and so does [workers];
    [proc_name] reads as the value held unless that is None, and then as
    the value of [default_proc_name]; [worker_class] reads as the class
    that the value held names; and a name that is neither registered, nor
    bound in the instance, nor given a meaning by the class raises the
    AttributeError of [__getattr__]. *)
Theorem attribute_read (os : OS) (self : Config.t) (d : gmap string Setting.t) :
  reachable os self →
  Config.settings self = Config.Dict d →
  (∀ name s, d !! name = Some s → plain name = true →
     Config.getattr self name = Return (Setting.get s) ∧
     Config.getattribute os self name = Return (Config.AVal (Setting.get s))) ∧
  (∀ s, d !! "workers" = Some s →
     Config.getattribute os self "workers" = Return (Config.AVal (Setting.get s))) ∧
  (∀ pn dpn, d !! "proc_name" = Some pn → d !! "default_proc_name" = Some dpn →
     Config.getattribute os self "proc_name" =
     Return (Config.AVal (match Setting.get pn with
                          | VNone => Setting.get dpn
                          | v => v
                          end))) ∧
  (∀ s, d !! "worker_class" = Some s →
     Config.getattribute os self "worker_class" =
     match load_worker_class os (Setting.get s) with
     | Return cls => Return (Config.AWorkerClass cls)
     | Raise e =>
         if decide (class_of e = AttributeError)
         then Return (Config.AVal (Setting.get s)) else Raise e
     end) ∧
  (∀ name, d !! name = None → plain name = true →
     Config.dict self !! name = None →
     Config.getattr self name = Raise (Config.no_setting name) ∧
     Config.getattribute os self name = Raise (Config.no_setting name)).
Proof.
  intros Hreach Hd. destruct (reachable_wf os self Hreach d Hd) as [_ Hdict].
  split_and!.
  - intros name s Hs (Hp & Hset & Hslot & Hcls)%plain_spec.
    assert (Hget : Config.getattr self name = Return (Setting.get s))
      by (by rewrite (getattr_Dict self d name Hd), Hs).
    split; [done|]. unfold Config.getattribute.
    rewrite Hp, Hslot. destruct (decide (name = "settings")); [done|].
    destruct (Config.dict self !! name) as [v|] eqn:Ev.
    + specialize (Hdict name (mk_is_Some _ _ Ev)). congruence.
    + rewrite Hcls, Hget. reflexivity.
  - intros s Hs. unfold Config.getattribute. simpl.
    unfold Config.workers. by rewrite Hd; simpl; rewrite Hs.
  - intros pn dpn Hpn Hdpn. unfold Config.getattribute. simpl.
    unfold Config.proc_name. rewrite Hd. simpl. rewrite Hpn. simpl.
    destruct (Setting.get pn); simpl; try done. by rewrite Hdpn.
  - intros s Hs. unfold Config.getattribute. simpl.
    unfold Config.worker_class. rewrite Hd. simpl. rewrite Hs. simpl.
    destruct (load_worker_class os (Setting.get s)) as [cls|e]; simpl; [done|].
    case_decide; [|done].
    rewrite (getattr_Dict self d "worker_class" Hd), Hs. reflexivity.
  - intros name Hs (Hp & Hset & Hslot & Hcls)%plain_spec Hv.
    assert (Hget : Config.getattr self name = Raise (Config.no_setting name))
      by (by rewrite (getattr_Dict self d name Hd), Hs).
    split; [done|]. unfold Config.getattribute.
    rewrite Hp, Hslot. destruct (decide (name = "settings")); [done|]. rewrite Hv, Hcls, Hget. reflexivity.
Qed.

Lemma attribute_read_witness :
  Config.getattribute example_os fresh_config "bind" =
    Return (Config.AVal (VStr "127.0.0.1:8000")) ∧
  Config.getattribute example_os fresh_config "no_such_setting" =
    Raise (Config.no_setting "no_such_setting").
Proof.
  destruct (attribute_read example_os fresh_config module_settings
              (module_config_reachable example_os VNone) eq_refl)
    as (Hplain & _ & _ & _ & Hnone).
  destruct (module_settings !! "bind") as [s|] eqn:Hs; [|by vm_compute in Hs].
  assert (Hv : Setting.get s = VStr "127.0.0.1:8000").
  { vm_compute in Hs. by injection Hs as <-. }
  split.
  - rewrite <- Hv. apply (Hplain "bind" s Hs). reflexivity.
  - apply (Hnone "no_such_setting"); reflexivity.
Defined.

(** C8 fails: [uid] is no setting, and the assignment [self.uid = 0]
    raises, [uid] being a property that has no setter; and where a
    setting is called [settings], an assignment to this registered name
    is let through. *)
Lemma assignment_refused_or_not :
  Config.contains (Config.settings fresh_config) "uid" = Return false ∧
  Config.setattr fresh_config "uid" (VInt 0) =
    Config.Outcome (Some (Interp AttributeError)) fresh_config ∧
  ∃ ks self,
    declare [SettingsSetting] [] = Return ks ∧
    Config.init example_os ks VNone = Return self ∧
    Config.contains (Config.settings self) "settings" = Return true ∧
    Config.raised (Config.setattr self "settings" (VInt 0)) = None ∧
    Config.settings (Config.after (Config.setattr self "settings" (VInt 0))) =
      Config.Other (VInt 0).
Proof.
  split; [by_evaluation|]. split; [by_evaluation|].
  eexists _, _. split; [vm_compute; reflexivity|].
  split; [vm_compute; reflexivity|]. split_and!; by_evaluation.
Qed.

(** C8, as the code has it.  Where [settings] is the dictionary: an
    assignment to a registered name other than [settings] raises the
    AttributeError "Invalid access!" and changes nothing; an assignment to
    a name that is not registered binds the name in the instance, where a
    read finds the value, unless the name is a property or a slot of the
    object, which refuse it and change nothing; and an assignment to
    [settings] replaces the dictionary. *)
Theorem attribute_assignment (os : OS) (self : Config.t)
    (d : gmap string Setting.t) (name : string) (val : pyval) :
  Config.settings self = Config.Dict d →
  (∀ s, d !! name = Some s → name ≠ "settings" →
     Config.setattr self name val = Config.Outcome (Some Config.invalid_access) self ∧
     Config.getattr (Config.after (Config.setattr self name val)) name =
       Return (Setting.get s)) ∧
  (d !! name = None → name ≠ "settings" → read_only name = false →
     Config.setattr self name val =
       Config.Outcome None
         {| Config.settings := Config.settings self;
            Config.dict := <[name := val]> (Config.dict self) |} ∧
     Config.getattribute os (Config.after (Config.setattr self name val)) name =
       Return (Config.AVal val)) ∧
  (d !! name = None → read_only name = true →
     ∃ e, Config.setattr self name val = Config.Outcome (Some e) self ∧
          (e = Interp AttributeError ∨ e = Interp TypeError)) ∧
  (name = "settings" →
     Config.setattr self name val =
       Config.Outcome None
         {| Config.settings := Config.Other val; Config.dict := Config.dict self |}).
Proof.
  intros Hd. split_and!.
  - intros s Hs Hne.
    assert (Config.setattr self name val =
            Config.Outcome (Some Config.invalid_access) self) as ->.
    { unfold Config.setattr. destruct (decide (name = "settings")); [done|].
      rewrite Hd. simpl. by rewrite bool_decide_eq_true_2 by eauto. }
    split; [done|]. simpl. by rewrite (getattr_Dict self d name Hd), Hs.
  - intros Hs Hne [Hprop Hslot]%orb_false_iff.
    apply bool_decide_eq_false in Hprop.
    assert (Config.property_of name = None) as Hp
      by (by apply eq_None_not_Some).
    assert (name ≠ "__weakref__") as Hw.
    { intros ->. by vm_compute in Hslot. }
    assert (Config.setattr self name val =
       Config.Outcome None
         {| Config.settings := Config.settings self;
            Config.dict := <[name := val]> (Config.dict self) |}) as ->.
    { unfold Config.setattr, Config.object_setattr.
      destruct (decide (name = "settings")); [done|]. rewrite Hd. simpl.
      rewrite bool_decide_eq_false_2 by (rewrite Hs; by intros [??]).
      rewrite Hp. destruct (decide (name = "__weakref__")); [done|].
      by rewrite Hslot. }
    split; [done|]. simpl. unfold Config.getattribute.
    rewrite Hp, Hslot. destruct (decide (name = "settings")); [done|]. simpl.
    by rewrite lookup_insert_eq.
  - intros Hs Hro. unfold Config.setattr, Config.object_setattr.
    assert (name ≠ "settings") as Hne.
    { intros ->. by vm_compute in Hro. }
    destruct (decide (name = "settings")); [done|]. rewrite Hd. simpl.
    rewrite bool_decide_eq_false_2 by (rewrite Hs; by intros [??]).
    destruct (Config.property_of name) eqn:Hp; [by eauto|].
    destruct (decide (name = "__weakref__")); [by eauto|].
    apply orb_true_iff in Hro as [Hro|Hro].
    + apply bool_decide_eq_true in Hro. rewrite Hp in Hro. by destruct Hro.
    + rewrite Hro. eauto.
  - intros ->. reflexivity.
Qed.

Lemma attribute_assignment_witness :
  Config.setattr fresh_config "workers" (VInt 4) =
    Config.Outcome (Some Config.invalid_access) fresh_config ∧
  Config.getattribute example_os
    (Config.after (Config.setattr fresh_config "note" (VInt 4))) "note" =
    Return (Config.AVal (VInt 4)).
Proof.
  destruct (module_settings !! "workers") as [s|] eqn:Hs; [|by vm_compute in Hs].
  split.
  - destruct (attribute_assignment example_os fresh_config module_settings
                "workers" (VInt 4) eq_refl) as (H & _).
    by apply (H s Hs).
  - destruct (attribute_assignment example_os fresh_config module_settings
                "note" (VInt 4) eq_refl) as (_ & H & _).
    by apply H.
Defined.

(** ** The order of the sort keys *)

Lemma section_le_po : PartialOrder section_le.
Proof.
  split; [split|].
  - intros [a|]; simpl; done.
  - intros [a|] [b|] [c|]; simpl; try done. apply transitivity.
  - intros [a|] [b|]; simpl; try done. intros ??. f_equal. by apply (anti_symm String.le).
Qed.

#[local] Existing Instance section_le_po.

Lemma section_le_total : Total section_le.
Proof. intros [a|] [b|]; simpl; auto. apply (total String.le). Qed.

Lemma key_le_refl : Reflexive key_le.
Proof. intros [s o]. unfold key_le. simpl. by case_decide. Qed.

Lemma key_le_trans : Transitive key_le.
Proof.
  intros [s1 o1] [s2 o2] [s3 o3]. unfold key_le. simpl.
  repeat case_decide; subst; try done; intros H12 H23.
  - lia.
  - destruct (anti_symm section_le s3 s2); done.
  - by etrans.
Qed.

#[local] Existing Instance section_le_total.

Lemma key_le_total : Total key_le.
Proof.
  intros [s1 o1] [s2 o2]. unfold key_le. simpl.
  repeat case_decide; subst; try done; [lia|apply (total section_le)].
Qed.

#[local] Existing Instances key_le_refl key_le_trans key_le_total.

Lemma key_le_antisym k1 k2 : key_le k1 k2 → key_le k2 k1 → k1 = k2.
Proof.
  destruct k1 as [s1 o1], k2 as [s2 o2]. unfold key_le. simpl.
  repeat case_decide; subst; try done; intros H12 H21.
  - f_equal. lia.
  - destruct (anti_symm section_le s1 s2); done.
Qed.

(** The order on keys is the lexicographic one: the section decides, and
    between two settings of one section the order of registration. *)
Lemma key_le_lexicographic (s1 s2 : option string) (o1 o2 : nat) :
  key_le (s1, o1) (s2, o2) ↔
  (section_le s1 s2 ∧ s1 ≠ s2) ∨ (s1 = s2 ∧ (o1 ≤ o2)%nat).
Proof.
  unfold key_le. simpl. case_decide as E.
  - subst. split; [by right|]. by intros [[_ ?]|[_ ?]].
  - split; [by left|]. by intros [[? _]|[? _]].
Qed.

Section SortLemmas.
Context {A : Type}.
Implicit Types (x : sort_key * A) (l : list (sort_key * A)).

Lemma insert_by_key_perm x l : insert_by_key x l ≡ₚ x :: l.
Proof.
  induction l as [|y l IH]; simpl; [done|].
  case_decide; [done|]. rewrite IH. apply Permutation_swap.
Qed.

Lemma insert_by_key_sorted x l :
  StronglySorted by_key l → StronglySorted by_key (insert_by_key x l).
Proof.
  induction 1 as [|y l Hl IH Hy]; simpl.
  - by repeat constructor.
  - case_decide as Hxy.
    + constructor; [by constructor|]. constructor; [done|].
      eapply Forall_impl; [exact Hy|]. intros z Hz.
      unfold by_key in *. by etrans.
    + constructor; [done|]. rewrite insert_by_key_perm.
      constructor; [|done]. unfold by_key.
      by destruct (total key_le x.1 y.1).
Qed.

Lemma sort_by_key_perm l : sort_by_key l ≡ₚ l.
Proof.
  induction l as [|x l IH]; simpl; [done|].
  by rewrite insert_by_key_perm, IH.
Qed.

Lemma sort_by_key_sorted l : StronglySorted by_key (sort_by_key l).
Proof.
  induction l as [|x l IH]; simpl; [constructor|].
  by apply insert_by_key_sorted.
Qed.
End SortLemmas.

(** The sort looks at the keys alone. *)
Lemma sort_by_key_map {A B : Type} (f : A → B) (l : list (sort_key * A)) :
  sort_by_key (map (prod_map id f) l) = map (prod_map id f) (sort_by_key l).
Proof.
  induction l as [|x l IH]; simpl; [done|]. rewrite IH.
  generalize (sort_by_key l). intros l'.
  induction l' as [|y l' IH']; simpl; [done|].
  case_decide; simpl; [done|]. by rewrite IH'.
Qed.

(** ** The options of the parser *)

Section Parser.
Context (os : OS) (self : Config.t) (d : gmap string Setting.t).
Hypothesis Hd : Config.settings self = Config.Dict d.

Lemma sorter_Dict k s :
  d !! k = Some s → Config.sorter self k = Return (key_of s).
Proof.
  intros Hk. unfold Config.sorter. rewrite Hd. simpl. by rewrite Hk.
Qed.

Lemma decorate_Dict keys :
  Forall (λ k, is_Some (d !! k)) keys →
  Config.decorate self keys = Return (map (λ k, (sorter_of d k, k)) keys).
Proof.
  induction 1 as [|k keys [s Hk] _ IH]; simpl; [done|].
  rewrite (sorter_Dict k s Hk), IH. simpl.
  unfold sorter_of. by rewrite Hk.
Qed.

Lemma add_option_app s parser :
  Setting.add_option os s parser = parser ++ Setting.add_option os s [].
Proof.
  unfold Setting.add_option. destruct (Setting.cli s); [|done].
  by rewrite app_nil_r.
Qed.

Lemma add_options_Dict l parser :
  Forall (λ s, d !! Setting.name s = Some s) l →
  Config.add_options os self (map Setting.name l) parser =
  Return (parser ++ options_of os l).
Proof.
  intros Hl. revert parser.
  induction Hl as [|s l Hs _ IH]; intros parser; simpl.
  - unfold options_of. simpl. by rewrite app_nil_r.
  - rewrite Hd. simpl. rewrite Hs. simpl. rewrite IH.
    unfold options_of. simpl.
    by rewrite (add_option_app s parser), <- app_assoc.
Qed.
End Parser.

(** The entries of the dictionary with their keys, and these in the order
    of the sort: the settings as [parser] walks them. *)
Lemma sorted_settings_exist (d : gmap string Setting.t) :
  settings_wf d →
  ∃ sorted : list Setting.t,
    sorted ≡ₚ map snd (map_to_list d) ∧
    StronglySorted (λ a b, key_le (key_of a) (key_of b)) sorted ∧
    Forall (λ s, d !! Setting.name s = Some s) sorted ∧
    ∀ keys, keys ≡ₚ map fst (map_to_list d) →
      map snd (sort_by_key (map (λ k, (sorter_of d k, k)) keys)) =
      map Setting.name sorted.
Proof.
  intros [Hname Hord].
  set (items := map (λ p : string * Setting.t, (key_of p.2, p.2)) (map_to_list d)).
  assert (Hitems : Forall (λ p : sort_key * Setting.t,
            p.1 = key_of p.2 ∧ d !! Setting.name p.2 = Some p.2) (sort_by_key items)).
  { rewrite sort_by_key_perm. unfold items. apply Forall_forall.
    intros p [[k s] [-> Hks]]%list_elem_of_fmap. simpl.
    apply elem_of_map_to_list in Hks. by rewrite (Hname k s Hks). }
  exists (map snd (sort_by_key items)). split_and!.
  - rewrite sort_by_key_perm. unfold items. by rewrite map_map.
  - pose proof (sort_by_key_sorted items) as Hs.
    induction Hs as [|p l Hl IH Hp]; simpl; [constructor|].
    apply Forall_cons in Hitems as [[Hpk _] Hitems].
    constructor; [by apply IH|].
    rewrite Forall_fmap. rewrite Forall_forall in Hitems.
    apply Forall_forall. intros q Hq. simpl.
    rewrite Forall_forall in Hp. specialize (Hp q Hq). unfold by_key in Hp.
    destruct (Hitems q Hq) as [<- _]. by rewrite <- Hpk.
  - rewrite Forall_fmap. eapply Forall_impl; [exact Hitems|]. by intros p [_ ?].
  - intros keys Hkeys.
    set (g := λ k : string, (sorter_of d k, k)).
    assert (Hg : map g (map fst (map_to_list d)) =
                 map (prod_map id Setting.name) items).
    { unfold items. rewrite !map_map. apply map_ext_in.
      intros [k s] Hks%list_elem_of_In%elem_of_map_to_list. unfold g, sorter_of.
      simpl. by rewrite Hks, (Hname k s Hks). }
    assert (Hsort : sort_by_key (map g keys) =
                    sort_by_key (map (prod_map id Setting.name) items)).
    { apply (StronglySorted_unique_strong by_key);
        [|apply sort_by_key_sorted..|].
      - intros [k1 n1] [k2 n2] H1 H2 H12 H21.
        rewrite sort_by_key_perm in H1, H2. rewrite <- Hg in H2.
        rewrite Hkeys in H1.
        apply list_elem_of_fmap in H1 as [x1 [[= -> ->] Hx1]].
        apply list_elem_of_fmap in H2 as [x2 [[= -> ->] Hx2]].
        apply list_elem_of_fmap in Hx1 as [[? s1] [-> Hx1%elem_of_map_to_list]].
        apply list_elem_of_fmap in Hx2 as [[? s2] [-> Hx2%elem_of_map_to_list]].
        simpl in *. unfold by_key, sorter_of in H12, H21. simpl in *.
        rewrite Hx1, Hx2 in *.
        pose proof (key_le_antisym _ _ H12 H21) as [= _ Ho].
        by rewrite (Hord _ _ _ _ Hx1 Hx2 Ho).
      - rewrite !sort_by_key_perm, <- Hg. by rewrite Hkeys. }
    rewrite Hsort, sort_by_key_map, !map_map. done.
Qed.



(** The options of the module, as [parser] adds them: by section, and in
    a section in the order of the class statements. *)
Example parser_of_the_module :
  map kw_dest <$> Config.parser example_os fresh_config =
  Return
    ["config"; "debug"; "spew"; "logfile"; "loglevel"; "logconfig";
     "proc_name"; "preload_app"; "daemon"; "pidfile"; "user"; "group";
     "umask"; "bind"; "backlog"; "workers"; "worker_class";
     "worker_connections"; "max_requests"; "timeout"; "keepalive"] ∧
  map (λ c, (args c, kw_metavar c, kw_action c, kw_type c, kw_help c))
    <$> (take 2 <$> Config.parser example_os fresh_config) =
  Return
    [(["-c"; "--config"], Some "FILE", "store", Some "string",
      "The path to a Gunicorn config file. [None]");
     (["--debug"], None, "store_true", None,
      "Turn on debugging in the server. [False]")].
Proof. split; by_evaluation. Qed.

(** Reading and setting the settings of a new instance. *)
Example set_workers :
  Config.getattr fresh_config "workers" = Return (VInt 1) ∧
  Config.getattr fresh_config "bind" = Return (VStr "127.0.0.1:8000") ∧
  Config.getattr
    (Config.after (Config.set example_os fresh_config "workers" (VStr "4")))
    "workers" = Return (VInt 4) ∧
  Config.raised (Config.set example_os fresh_config "nonexistent_name" VNone) =
    Some (Config.no_setting "nonexistent_name").
Proof. split_and!; by_evaluation. Qed.

(** * Further properties *)

(** ** str.strip *)

Lemma lstrip_head l c r : PyStr.lstrip l = c :: r → PyStr.isspace c = false.
Proof.
  induction l as [|a l IH]; simpl; [done|].
  destruct (PyStr.isspace a) eqn:E; [done|]. by intros [= <- _].
Qed.

Lemma lstrip_idemp l : PyStr.lstrip (PyStr.lstrip l) = PyStr.lstrip l.
Proof.
  destruct (PyStr.lstrip l) as [|c r] eqn:E; [done|].
  simpl. by rewrite (lstrip_head l c r E).
Qed.

Lemma lstrip_app_text a c b :
  PyStr.isspace c = false →
  PyStr.lstrip (a ++ c :: b) = PyStr.lstrip a ++ c :: b.
Proof.
  intros Hc. induction a as [|x a IH]; simpl; [by rewrite Hc|].
  by destruct (PyStr.isspace x).
Qed.

Lemma rstrip_cons_text c r :
  PyStr.isspace c = false → PyStr.rstrip (c :: r) = c :: PyStr.rstrip r.
Proof.
  intros Hc. unfold PyStr.rstrip. simpl.
  rewrite (lstrip_app_text (rev r) c [] Hc), rev_app_distr. done.
Qed.

Lemma rstrip_idemp l : PyStr.rstrip (PyStr.rstrip l) = PyStr.rstrip l.
Proof. unfold PyStr.rstrip. by rewrite rev_involutive, lstrip_idemp. Qed.

Lemma strip_text_idemp l :
  PyStr.strip_text (PyStr.strip_text l) = PyStr.strip_text l.
Proof.
  unfold PyStr.strip_text.
  destruct (PyStr.lstrip l) as [|c r] eqn:E; [done|].
  pose proof (lstrip_head l c r E) as Hc.
  rewrite (rstrip_cons_text c r Hc). simpl. rewrite Hc.
  by rewrite <- (rstrip_cons_text c r Hc), rstrip_idemp.
Qed.

Lemma strip_text_head l c :
  head (PyStr.strip_text l) = Some c → PyStr.isspace c = false.
Proof.
  unfold PyStr.strip_text.
  destruct (PyStr.lstrip l) as [|a r] eqn:E; [done|].
  pose proof (lstrip_head l a r E) as Ha.
  rewrite (rstrip_cons_text a r Ha). by intros [= <-].
Qed.

Lemma strip_text_last l c :
  last (PyStr.strip_text l) = Some c → PyStr.isspace c = false.
Proof.
  unfold PyStr.strip_text, PyStr.rstrip.
  destruct (PyStr.lstrip (rev (PyStr.lstrip l))) as [|a r] eqn:E; [done|].
  simpl. rewrite last_snoc. intros [= <-]. by eapply lstrip_head.
Qed.

Lemma strip_idemp s : PyStr.strip (PyStr.strip s) = PyStr.strip s.
Proof.
  unfold PyStr.strip.
  by rewrite list_ascii_of_string_of_list_ascii, strip_text_idemp.
Qed.

(** ** What the validators return *)

(** X1: what [validate_string] returns is None or a string with no white
    space at either end, and [validate_string] returns it unchanged when
    it is called on it. *)
Theorem validate_string_trims (os : OS) (val r : pyval) :
  validate_string os val = Return r →
  validate_string os r = Return r ∧
  (r = VNone ∨
   ∃ s, r = VStr s ∧ PyStr.strip s = s ∧
        (∀ c, head (list_ascii_of_string s) = Some c → PyStr.isspace c = false) ∧
        (∀ c, last (list_ascii_of_string s) = Some c → PyStr.isspace c = false)).
Proof.
  destruct val as [| | |s| |]; simpl; try done.
  - intros [= <-]. split; [done|by left].
  - intros [= <-]. simpl. rewrite strip_idemp. split; [done|]. right.
    exists (PyStr.strip s). split_and!; [done|apply strip_idemp|..];
      unfold PyStr.strip; rewrite list_ascii_of_string_of_list_ascii.
    + apply strip_text_head.
    + apply strip_text_last.
Qed.

Lemma validate_string_trims_witness :
  validate_string example_os (VStr "hi") = Return (VStr "hi").
Proof.
  exact (proj1 (validate_string_trims example_os (VStr "  hi  ") (VStr "hi") eq_refl)).
Defined.


(** ** Writing back what was read *)

Lemma set_Dict os self d name s val :
  Config.settings self = Config.Dict d →
  d !! name = Some s →
  Config.set os self name val =
  match call_validator os (Setting.validator s) val with
  | Return v => Config.Outcome None
      {| Config.settings := Config.Dict (<[name := Setting.with_value s v]> d);
         Config.dict := Config.dict self |}
  | Raise e => Config.Outcome (Some e) self
  end.
Proof.
  intros Hd Hs. unfold Config.set, Config.store. rewrite Hd. simpl.
  rewrite bool_decide_eq_true_2 by eauto. simpl. rewrite Hs. simpl.
  unfold Setting.set. by destruct (call_validator _ _ _).
Qed.



(** ** The dictionary of [make_settings] *)

Lemma last_named_cons c ks k :
  last_named (c :: ks) k =
  match last_named ks k with
  | Some c' => Some c'
  | None => if decide (Setting.name c = k) then Some c else None
  end.
Proof.
  unfold last_named. rewrite filter_cons.
  destruct (decide (Setting.name c = k)); [|by destruct (last _)].
  by rewrite last_cons.
Qed.

Lemma last_named_None ks k :
  last_named ks k = None ↔ ∀ c, c ∈ ks → Setting.name c ≠ k.
Proof.
  induction ks as [|c ks IH].
  - split; [|done]. intros _ c Hc. by apply elem_of_nil in Hc.
  - rewrite last_named_cons. split.
    + destruct (last_named ks k); [done|]. case_decide; [done|].
      intros _ c' [->|Hc']%elem_of_cons; [done|]. by apply IH.
    + intros H. rewrite (proj2 IH) by (intros c' Hc'; apply H; by right).
      rewrite decide_False; [done|]. apply H. by left.
Qed.

Lemma last_named_Some ks k c :
  last_named ks k = Some c → c ∈ ks ∧ Setting.name c = k.
Proof.
  induction ks as [|c0 ks IH]; [done|]. rewrite last_named_cons.
  destruct (last_named ks k) as [c'|].
  - intros [= ->]. destruct IH as [? ?]; [done|]. split; [by right|done].
  - case_decide; [|done]. intros [= ->]. split; [by left|done].
Qed.

Lemma make_settings_from_lookup os ignore ks m m' :
  make_settings_from os ignore ks m = Return m' →
  Forall (λ c, ∃ s, Setting.init os c = Return s) ks ∧
  ∀ k, m' !! k =
    match last_named ks k with
    | Some c =>
        if bool_decide (k ∈ ignore) then m !! k
        else match Setting.init os c with Return s => Some s | Raise _ => None end
    | None => m !! k
    end.
Proof.
  revert m. induction ks as [|c ks IH]; intros m; simpl.
  - intros [= <-]. split; [constructor|done].
  - destruct (Setting.init os c) as [s0|e] eqn:Ei; [|done]. simpl.
    pose proof (Setting_init_Return os c s0 Ei) as [Hn _].
    unfold Setting.copy. rewrite Hn.
    case_bool_decide as Hig; intros [Hall Hk]%IH;
      (split; [constructor; by eauto|]); intros k; rewrite Hk, last_named_cons;
      destruct (last_named ks k) as [c'|] eqn:El.
    + done.
    + case_decide as Hck; [|done]. subst k. by rewrite bool_decide_eq_true_2.
    + case_bool_decide as Hk'; [|done]. rewrite lookup_insert_ne; [done|].
      by intros <-.
    + case_decide as Hck.
      * subst k. rewrite bool_decide_eq_false_2 by done.
        by rewrite Ei, lookup_insert_eq.
      * by rewrite lookup_insert_ne.
Qed.

Lemma make_settings_from_Raise os ignore ks m e :
  make_settings_from os ignore ks m = Raise e →
  ∃ before c rest, ks = before ++ c :: rest ∧
    Forall (λ c, ∃ s, Setting.init os c = Return s) before ∧
    Setting.init os c = Raise e.
Proof.
  revert m. induction ks as [|c ks IH]; intros m; simpl; [done|].
  destruct (Setting.init os c) as [s0|e0] eqn:Ei; simpl.
  - assert (∀ m, make_settings_from os ignore ks m = Raise e →
        ∃ before c0 rest, c :: ks = before ++ c0 :: rest ∧
          Forall (λ c, ∃ s, Setting.init os c = Return s) before ∧
          Setting.init os c0 = Raise e) as Hstep.
    { intros m0 (before & c0 & rest & -> & Hb & Hc)%IH.
      exists (c :: before), c0, rest. split_and!; [done| |done].
      constructor; by eauto. }
    case_bool_decide; apply Hstep.
  - intros [= ->]. exists [], c, ks. split_and!; [done|constructor|done].
Qed.

(** X3: [make_settings] instantiates every registered class, in the
    order of registration.  When all instances can be built, the
    dictionary holds under each name that is not ignored the instance of
    the class registered last under this name, and nothing else.  When
    one cannot, the exception is that of the first such class, also when
    the name of the class is one to ignore. *)
Theorem make_settings_spec (os : OS) (ks : list Setting.t) (ignore : list string) :
  match make_settings os ks ignore with
  | Return d =>
      Forall (λ c, ∃ s, Setting.init os c = Return s) ks ∧
      ∀ k, d !! k =
        if bool_decide (k ∈ ignore) then None
        else match last_named ks k with
             | Some c =>
                 match Setting.init os c with Return s => Some s | Raise _ => None end
             | None => None
             end
  | Raise e =>
      ∃ before c rest, ks = before ++ c :: rest ∧
        Forall (λ c, ∃ s, Setting.init os c = Return s) before ∧
        Setting.init os c = Raise e
  end.
Proof.
  unfold make_settings.
  destruct (make_settings_from os ignore ks ∅) as [d|e] eqn:E.
  - apply make_settings_from_lookup in E as [Hall Hk]. split; [done|].
    intros k. rewrite Hk, lookup_empty.
    destruct (last_named ks k); by case_bool_decide.
  - by eapply make_settings_from_Raise.
Qed.

(** ** A new instance *)

(** X4: when [Config(usage)] returns, no registered class is called
    [usage], the instance binds [usage] and nothing else, and every
    name reads as the value of a new instance of the class registered
    last under it, or raises the AttributeError of [__getattr__] when
    there is none.  When it raises, either the instance of some class
    could not be built and the exception is that one, or a class is
    called [usage] and the assignment of [usage] was refused. *)
Theorem new_instance (os : OS) (ks : list Setting.t) (usage : pyval) :
  match Config.init os ks usage with
  | Return self =>
      (∀ c, c ∈ ks → Setting.name c ≠ "usage") ∧
      Config.dict self = <["usage" := usage]> ∅ ∧
      ∀ k, Config.getattr self k =
        match last_named ks k with
        | Some c => Setting.get <$> Setting.init os c
        | None => Raise (Config.no_setting k)
        end
  | Raise e =>
      (e = Config.invalid_access ∧ ∃ c, c ∈ ks ∧ Setting.name c = "usage") ∨
      (∃ c, c ∈ ks ∧ Setting.init os c = Raise e)
  end.
Proof.
  unfold Config.init, make_settings.
  destruct (make_settings_from os [] ks ∅) as [d|e] eqn:E; simpl.
  - apply make_settings_from_lookup in E as [Hall Hk].
    assert (Hd : ∀ k, d !! k =
      match last_named ks k with
      | Some c => match Setting.init os c with Return s => Some s | Raise _ => None end
      | None => None
      end).
    { intros k. rewrite Hk, lookup_empty. destruct (last_named ks k); [|done].
      rewrite bool_decide_eq_false_2; [done|]. apply not_elem_of_nil. }
    assert (Hinit : ∀ c, c ∈ ks → ∃ s, Setting.init os c = Return s)
      by (by apply Forall_forall).
    unfold Config.setattr. simpl. case_bool_decide as Hu; simpl.
    + left. split; [done|]. destruct Hu as [s Hs]. rewrite Hd in Hs.
      destruct (last_named ks "usage") as [c|] eqn:El; [|done].
      apply last_named_Some in El. eauto.
    + split_and!; [|done|].
      * apply last_named_None. rewrite Hd in Hu.
        destruct (last_named ks "usage") as [c|] eqn:El; [|done].
        destruct (Hinit c) as [s Hs]; [by apply last_named_Some in El as [? _]|].
        rewrite Hs in Hu. destruct Hu. by eexists.
      * intros k. erewrite getattr_Dict by done. rewrite Hd.
        destruct (last_named ks k) as [c|] eqn:El; [|done].
        destruct (Hinit c) as [s Hs]; [by apply last_named_Some in El as [? _]|].
        by rewrite Hs.
  - right. apply make_settings_from_Raise in E as (before & c & rest & -> & _ & Hc).
    exists c. split; [|done]. apply elem_of_app. right. by left.
Qed.

(** ** The documentation of a registered class *)

Lemma isspace_eol c : c = PyStr.nl ∨ c = PyStr.cr → PyStr.isspace c = true.
Proof. by intros [->| ->]. Qed.

Lemma splitlines_from_head cur l first others :
  PyStr.splitlines_from cur l = first :: others →
  ∃ line rest,
    first = rev cur ++ line ∧ l = line ++ rest ∧
    Forall (λ c, c ≠ PyStr.nl ∧ c ≠ PyStr.cr) line ∧
    (rest = [] ∨ ∃ c r, rest = c :: r ∧ (c = PyStr.nl ∨ c = PyStr.cr)).
Proof.
  revert cur. induction l as [|c l IH]; intros cur; simpl.
  - destruct cur; [done|]. intros [= <- _]. exists [], [].
    rewrite app_nil_r. split_and!; [done|done|constructor|by left].
  - destruct (Ascii.eqb_spec c PyStr.nl) as [->|Hnl].
    { intros [= <- _]. exists [], (PyStr.nl :: l). rewrite app_nil_r.
      split_and!; [done|done|constructor|]. right. eauto. }
    destruct (Ascii.eqb_spec c PyStr.cr) as [->|Hcr].
    { intros H. assert (first = rev cur) as ->.
      { destruct l as [|c' l']; [by injection H|].
        destruct (Ascii.eqb c' PyStr.nl); by injection H. }
      exists [], (PyStr.cr :: l). rewrite app_nil_r.
      split_and!; [done|done|constructor|]. right. eauto. }
    intros (line & rest & -> & -> & Hline & Hrest)%IH.
    exists (c :: line), rest. simpl. rewrite <- app_assoc.
    split_and!; [done|done|by constructor|done].
Qed.

Lemma string_of_list_ascii_app (l1 l2 : list ascii) :
  string_of_list_ascii (l1 ++ l2) =
  string_of_list_ascii l1 +:+ string_of_list_ascii l2.
Proof. induction l1 as [|c l1 IH]; simpl; [done|]. by rewrite IH. Qed.

Lemma fmt_desc_Return text desc short :
  SettingMeta.fmt_desc text = Return (desc, short) →
  PyStr.strip desc = desc ∧
  short ≠ EmptyString ∧
  Forall (λ c, c ≠ PyStr.nl ∧ c ≠ PyStr.cr) (list_ascii_of_string short) ∧
  ∃ rest, desc = short +:+ rest ∧
    (rest = EmptyString ∨ ∃ c r, rest = String c r ∧ (c = PyStr.nl ∨ c = PyStr.cr)).
Proof.
  unfold SettingMeta.fmt_desc, PyStr.splitlines, PyStr.splitlines_text.
  set (d := PyStr.strip (PyStr.dedent text)).
  destruct (PyStr.splitlines_from [] (list_ascii_of_string d))
    as [|first others] eqn:E; simpl; [done|].
  intros [= <- <-].
  pose proof (splitlines_from_head _ _ _ _ E)
    as (line & rest & -> & Hd & Hline & Hrest).
  simpl in *.
  assert (Hhead : ∀ c, head (list_ascii_of_string d) = Some c →
            PyStr.isspace c = false).
  { unfold d, PyStr.strip. rewrite list_ascii_of_string_of_list_ascii.
    apply strip_text_head. }
  split_and!.
  - apply strip_idemp.
  - destruct line as [|c line]; [|done]. exfalso. simpl in Hd.
    destruct Hrest as [->|(c & r & -> & Hc)].
    + by rewrite Hd in E.
    + specialize (Hhead c). rewrite Hd in Hhead.
      rewrite (isspace_eol c Hc) in Hhead. by specialize (Hhead eq_refl).
  - by rewrite list_ascii_of_string_of_list_ascii.
  - exists (string_of_list_ascii rest). split.
    + by rewrite <- string_of_list_ascii_app, <- Hd, string_of_list_ascii_of_string.
    + destruct Hrest as [->|(c & r & -> & Hc)]; [by left|]. right.
      exists c, (string_of_list_ascii r). done.
Qed.

Lemma new_fmt_desc attrs ks cls ks' :
  SettingMeta.new attrs ks = Return (cls, ks') →
  SettingMeta.fmt_desc (default EmptyString (Attrs.desc attrs)) =
    Return (Setting.desc cls, Setting.short cls) ∧
  Setting.value cls = VNone.
Proof.
  unfold SettingMeta.new. destruct (Attrs.validator attrs) as [v|]; [|done].
  destruct (SettingMeta.fmt_desc _) as [[d first]|e]; simpl; [|done].
  by intros [= <- <-].
Qed.

Lemma registry_elem ks s (P : Setting.t → Prop) :
  registry ks → s ∈ ks →
  (∀ attrs ks0 cls ks', SettingMeta.new attrs ks0 = Return (cls, ks') → P cls) →
  P s.
Proof.
  intros Hks Hs HP. induction Hks as [|attrs ks cls ks' _ IH Hnew].
  - by apply elem_of_nil in Hs.
  - pose proof (new_Return _ _ _ _ Hnew) as (-> & _).
    apply elem_of_app in Hs as [Hs|Hs%list_elem_of_singleton]; [by apply IH|].
    subst s. by eapply HP.
Qed.

(** X5: of every registered class, [short] is the first line of [desc]:
    it is not empty, holds no line break, and [desc] goes on after it
    with a line break or ends there; [desc] has no white space at
    either end. *)
Theorem short_is_the_first_line (ks : list Setting.t) (s : Setting.t) :
  registry ks → s ∈ ks →
  PyStr.strip (Setting.desc s) = Setting.desc s ∧
  Setting.short s ≠ EmptyString ∧
  Forall (λ c, c ≠ PyStr.nl ∧ c ≠ PyStr.cr)
    (list_ascii_of_string (Setting.short s)) ∧
  ∃ rest, Setting.desc s = Setting.short s +:+ rest ∧
    (rest = EmptyString ∨ ∃ c r, rest = String c r ∧ (c = PyStr.nl ∨ c = PyStr.cr)).
Proof.
  intros Hks Hs. pattern s. apply (registry_elem ks s _ Hks Hs).
  intros attrs ks0 cls ks' [Hf _]%new_fmt_desc.
  by eapply fmt_desc_Return.
Qed.

Lemma short_is_the_first_line_witness :
  ∃ s, KNOWN_SETTINGS !! 1%nat = Some s ∧
    Setting.short s = "The socket to bind." ∧
    ∃ rest, Setting.desc s = Setting.short s +:+ rest ∧
      (rest = EmptyString ∨
       ∃ c r, rest = String c r ∧ (c = PyStr.nl ∨ c = PyStr.cr)).
Proof.
  destruct (KNOWN_SETTINGS !! 1%nat) as [s|] eqn:E; [|by vm_compute in E].
  exists s. split; [done|]. split.
  - vm_compute in E. by injection E as <-.
  - apply (short_is_the_first_line KNOWN_SETTINGS s KNOWN_SETTINGS_registry).
    by eapply list_elem_of_lookup_2.
Defined.

(** ** What [set] and an assignment leave behind *)

Lemma set_after_cases os self name val :
  Config.after (Config.set os self name val) = self ∨
  ∃ d s v, Config.settings self = Config.Dict d ∧ d !! name = Some s ∧
    call_validator os (Setting.validator s) val = Return v ∧
    Config.after (Config.set os self name val) =
      {| Config.settings := Config.Dict (<[name := Setting.with_value s v]> d);
         Config.dict := Config.dict self |}.
Proof.
  unfold Config.set.
  destruct (Config.settings self) as [d|v] eqn:Es; simpl.
  - case_bool_decide as Hin; simpl; [|by left].
    destruct Hin as [s Hs]. rewrite Hs. simpl.
    destruct (Setting.set os s val) as [s'|e] eqn:E; simpl; [|by left].
    apply Setting_set_Return in E as (v & Hv & ->). right.
    exists d, s, v. unfold Config.store. by rewrite Es.
  - left. destruct v; simpl; try done.
    destruct (PyStr.contains name s); simpl; done.
Qed.

Lemma setattr_after_cases self name val :
  Config.after (Config.setattr self name val) = self ∨
  Config.after (Config.setattr self name val) =
    {| Config.settings := Config.Other val; Config.dict := Config.dict self |} ∨
  Config.after (Config.setattr self name val) =
    {| Config.settings := Config.settings self;
       Config.dict := <[name := val]> (Config.dict self) |}.
Proof.
  assert (Hobj : ∀ n,
    Config.after (Config.object_setattr self n val) = self ∨
    Config.after (Config.object_setattr self n val) =
      {| Config.settings := Config.Other val; Config.dict := Config.dict self |} ∨
    Config.after (Config.object_setattr self n val) =
      {| Config.settings := Config.settings self;
         Config.dict := <[n := val]> (Config.dict self) |}).
  { intros n. unfold Config.object_setattr.
    destruct (Config.property_of n); [by left|].
    case_decide; [by left|]. case_bool_decide; [by left|].
    case_decide; simpl; eauto. }
  unfold Config.setattr. case_decide; [apply Hobj|].
  destruct (Config.contains _ _) as [[]|e]; simpl; [by left|apply Hobj|by left].
Qed.

Lemma with_value_value c : Setting.with_value c (Setting.value c) = c.
Proof. by destruct c. Qed.

Lemma Setting_init_with_value os c s :
  Setting.init os c = Return s → s = Setting.with_value c (Setting.value s).
Proof.
  unfold Setting.init. case_decide.
  - intros [= <-]. by rewrite with_value_value.
  - by intros (v & _ & ->)%Setting_set_Return.
Qed.

Lemma init_Return os ks usage self :
  Config.init os ks usage = Return self →
  ∃ d, make_settings_from os [] ks ∅ = Return d ∧
    d !! "usage" = None ∧
    self = {| Config.settings := Config.Dict d;
              Config.dict := <["usage" := usage]> ∅ |}.
Proof.
  unfold Config.init, make_settings.
  destruct (make_settings_from os [] ks ∅) as [d|e]; simpl; [|done].
  unfold Config.setattr. simpl. case_bool_decide as Hu; simpl; [done|].
  intros [= <-]. exists d. split_and!; [done| |done].
  by apply eq_None_not_Some.
Qed.

Lemma reachable_registered os self :
  reachable os self →
  ∀ d, Config.settings self = Config.Dict d →
  ∃ ks, registry ks ∧
    ∀ k, match d !! k with
         | Some s => ∃ c, last_named ks k = Some c ∧
                          s = Setting.with_value c (Setting.value s)
         | None => last_named ks k = None
         end.
Proof.
  induction 1 as [ks usage self Hks Hinit|self name val _ IH|self name val _ IH];
    intros d Hd.
  - apply init_Return in Hinit as (d0 & Hm & _ & ->). injection Hd as ->.
    exists ks. split; [done|]. intros k.
    apply make_settings_from_lookup in Hm as [Hall Hk].
    rewrite Hk, lookup_empty. rewrite Forall_forall in Hall.
    destruct (last_named ks k) as [c|] eqn:El; [|done].
    rewrite bool_decide_eq_false_2 by apply not_elem_of_nil.
    destruct (Hall c) as [s Hs]; [by apply last_named_Some in El as [? _]|].
    rewrite Hs. exists c. split; [done|]. by eapply Setting_init_with_value.
  - destruct (set_after_cases os self name val) as [E|(d0 & s & v & Hd0 & Hs & _ & E)];
      rewrite E in Hd; [by apply IH|].
    injection Hd as <-. destruct (IH d0 Hd0) as (ks & Hks & Hk).
    exists ks. split; [done|]. intros k.
    destruct (decide (name = k)) as [<-|Hne].
    + rewrite lookup_insert_eq. specialize (Hk name). rewrite Hs in Hk.
      destruct Hk as (c & Hc & Hsc). exists c. split; [done|].
      rewrite Hsc. done.
    + rewrite lookup_insert_ne by done. apply Hk.
  - destruct (setattr_after_cases self name val) as [E|[E|E]];
      rewrite E in Hd; [by apply IH|done|by apply IH].
Qed.

(** X6: on every instance that can be reached, where [settings] is still
    the dictionary: no attribute bound in the instance has the name of a
    setting, and the dictionary holds, under the names registered when
    the instance was made and under no other, the class registered last
    under the name with nothing changed but [value]. *)
Theorem settings_of_an_instance (os : OS) (self : Config.t)
    (d : gmap string Setting.t) :
  reachable os self →
  Config.settings self = Config.Dict d →
  (∀ k, is_Some (Config.dict self !! k) → d !! k = None) ∧
  ∃ ks, registry ks ∧
    ∀ k, match d !! k with
         | Some s => ∃ c, last_named ks k = Some c ∧
                          s = Setting.with_value c (Setting.value s)
         | None => last_named ks k = None
         end.
Proof.
  intros Hreach Hd. split.
  - by destruct (reachable_wf os self Hreach d Hd) as [_ ?].
  - by apply (reachable_registered os self).
Qed.

Lemma settings_of_an_instance_witness :
  (∀ k, is_Some (Config.dict fresh_config !! k) → module_settings !! k = None) ∧
  ∃ ks, registry ks ∧
    ∀ k, match module_settings !! k with
         | Some s => ∃ c, last_named ks k = Some c ∧
                          s = Setting.with_value c (Setting.value s)
         | None => last_named ks k = None
         end.
Proof.
  exact (settings_of_an_instance example_os fresh_config module_settings
           (module_config_reachable example_os VNone) eq_refl).
Defined.

(** ** The parser after [set] *)

Lemma parser_Dict os self d :
  settings_wf d →
  Config.settings self = Config.Dict d →
  ∃ sorted : list Setting.t,
    sorted ≡ₚ map snd (map_to_list d) ∧
    StronglySorted (λ a b, key_le (key_of a) (key_of b)) sorted ∧
    Forall (λ s, d !! Setting.name s = Some s) sorted ∧
    Config.parser os self = Return (options_of os sorted).
Proof.
  intros Hwf Hd.
  destruct (sorted_settings_exist d Hwf) as (sorted & Hperm & Hsorted & Hin & Hkeys).
  exists sorted. split_and!; try done.
  unfold Config.parser, Config.keys. rewrite Hd. simpl.
  unfold Config.parser_of_keys.
  rewrite (decorate_Dict self d Hd).
  - simpl. rewrite (Hkeys _ (reflexivity _)).
    by rewrite (add_options_Dict os self d Hd sorted []).
  - apply Forall_forall. intros k Hin'.
    apply list_elem_of_fmap in Hin' as [[? s] [-> ?%elem_of_map_to_list]].
    by eexists.
Qed.

Lemma options_of_with_value os (l : list Setting.t) :
  options_of os (map (λ s, Setting.with_value s VNone) l) = options_of os l.
Proof.
  unfold options_of. rewrite map_map. f_equal.
Qed.

(** X7: [set] does not change the options that [parser] adds: the help
    of an option shows the default of the class, not the value held. *)
Theorem set_keeps_the_parser (os : OS) (self : Config.t) (name : string)
    (val : pyval) :
  reachable os self →
  Config.parser os (Config.after (Config.set os self name val)) =
  Config.parser os self.
Proof.
  intros Hreach.
  destruct (set_after_cases os self name val) as [->|(d & s & v & Hd & Hs & _ & E)];
    [done|].
  pose proof (reachable_wf os _ (reachable_set os self name val Hreach)) as Hwf'.
  rewrite E in *. set (d' := <[name := Setting.with_value s v]> d) in *.
  destruct (reachable_wf os self Hreach d Hd) as [Hwf _].
  destruct (Hwf' d' eq_refl) as [Hwfd' _].
  destruct (parser_Dict os self d Hwf Hd) as (l & Hperm & Hsorted & Hin & ->).
  destruct (parser_Dict os {| Config.settings := Config.Dict d';
                               Config.dict := Config.dict self |} d' Hwfd' eq_refl)
    as (l' & Hperm' & Hsorted' & Hin' & ->).
  f_equal. set (erase := λ s : Setting.t, Setting.with_value s VNone).
  rewrite <- (options_of_with_value os l), <- (options_of_with_value os l').
  f_equal. fold erase.
  assert (Herase : erase <$> d' = erase <$> d).
  { unfold d'. rewrite fmap_insert. apply insert_id.
    by rewrite lookup_fmap, Hs. }
  apply (StronglySorted_unique_strong (λ a b, key_le (key_of a) (key_of b))).
  - intros x1 x2 [a1 [-> H1]]%list_elem_of_fmap [a2 [-> H2]]%list_elem_of_fmap H12 H21.
    pose proof (key_le_antisym _ _ H12 H21) as [= _ Ho].
    rewrite Forall_forall in Hin, Hin'.
    specialize (Hin' _ H1). specialize (Hin _ H2).
    assert (∃ a0, d !! Setting.name a1 = Some a0 ∧ erase a0 = erase a1)
      as (a0 & Ha0 & Heq).
    { assert ((erase <$> d) !! Setting.name a1 = Some (erase a1)) as Hl
        by (by rewrite <- Herase, lookup_fmap, Hin').
      rewrite lookup_fmap in Hl.
      destruct (d !! Setting.name a1) as [a0|]; [|done].
      exists a0. split; [done|]. simpl in Hl. congruence. }
    destruct Hwf as [Hname Hord].
    assert (Setting.order a0 = Setting.order a1) as Ho0
      by exact (f_equal Setting.order Heq).
    assert (Setting.name a1 = Setting.name a2) as Hn
      by (eapply Hord; [exact Ha0|exact Hin|congruence]).
    rewrite Hn, Hin in Ha0. injection Ha0 as <-. by rewrite Heq.
  - by apply (StronglySorted_fmap erase (λ a b, key_le (key_of a) (key_of b))).
  - by apply (StronglySorted_fmap erase (λ a b, key_le (key_of a) (key_of b))).
  - rewrite Hperm, Hperm'.
    change (erase <$> (map_to_list d').*2 ≡ₚ erase <$> (map_to_list d).*2).
    assert (∀ m : gmap string Setting.t,
              erase <$> (map_to_list m).*2 = (map_to_list (erase <$> m)).*2) as Hm.
    { intros m. rewrite map_to_list_fmap, <- !list_fmap_compose.
      by apply list_fmap_ext. }
    by rewrite !Hm, Herase.
Qed.

Lemma set_keeps_the_parser_witness :
  Config.parser example_os
    (Config.after (Config.set example_os fresh_config "workers" (VInt 8))) =
  Config.parser example_os fresh_config.
Proof.
  exact (set_keeps_the_parser example_os fresh_config "workers" (VInt 8)
           (module_config_reachable example_os VNone)).
Defined.

(** ** Integers and their decimal text *)

Lemma digits_uint_acc (d : Decimal.uint) (acc : positive) :
  PyStr.digits 10 (Z.pos acc) (list_ascii_of_string (NilEmpty.string_of_uint d)) =
  (Z.pos (Pos.of_uint_acc d acc), []).
Proof.
  revert acc. induction d as [|d IH|d IH|d IH|d IH|d IH|d IH|d IH|d IH|d IH|d IH];
    intros acc; [done|..];
    cbn [NilEmpty.string_of_uint list_ascii_of_string PyStr.digits Pos.of_uint_acc];
    (change (PyStr.digit_value _ <? 10)%N with true); cbv iota;
    rewrite <- IH; f_equal; vm_compute PyStr.digit_value; lia.
Qed.

Lemma digits_uint (d : Decimal.uint) :
  PyStr.digits 10 0 (list_ascii_of_string (NilEmpty.string_of_uint d)) =
  (Z.of_N (Pos.of_uint d), []).
Proof.
  induction d as [|d IH|d IH|d IH|d IH|d IH|d IH|d IH|d IH|d IH|d IH];
    [done|exact IH|..];
    cbn [NilEmpty.string_of_uint list_ascii_of_string PyStr.digits Pos.of_uint];
    (change (PyStr.digit_value _ <? 10)%N with true); cbv iota;
    apply digits_uint_acc.
Qed.

Lemma is_digit_uint (d : Decimal.uint) :
  forallb PyStr.is_digit (list_ascii_of_string (NilEmpty.string_of_uint d)) = true.
Proof. induction d; simpl; done. Qed.

Lemma to_uint_normal (p : positive) :
  Pos.to_uint p ≠ Decimal.Nil ∧ ∀ u, Pos.to_uint p ≠ Decimal.D0 u.
Proof.
  pose proof (DecimalPos.Unsigned.to_of (Pos.to_uint p)) as H.
  pose proof (DecimalPos.Unsigned.of_to p) as Hp.
  rewrite Hp in H. simpl in H.
  destruct (Decimal.uint_eq_dec (Decimal.nzhead (Pos.to_uint p)) Decimal.Nil)
    as [Hnil|Hnz].
  - apply unorm_0 in Hnil. rewrite Hnil in H. by rewrite H in Hp.
  - rewrite (unorm_nzhead _ Hnz) in H. split.
    + by rewrite H.
    + intros u. rewrite H. apply nzhead_nonzero.
Qed.

Lemma int_text_digits (c : ascii) (l : list ascii) (n : Z) :
  PyStr.is_digit c && negb (Ascii.eqb c "0") = true →
  PyStr.digits 10 0 (c :: l) = (n, []) →
  PyStr.int_text (c :: l) = Some n ∧
  PyStr.int_text ("-"%char :: c :: l) = Some (- n).
Proof.
  intros Hc Hd.
  assert (PyStr.isspace c = false ∧ Ascii.eqb c "-" = false ∧
          Ascii.eqb c "+" = false ∧ Ascii.eqb c "0" = false ∧
          (PyStr.digit_value c <? 10)%N = true) as (Hs & Hm & Hp & H0 & Hv).
  { clear Hd. destruct c as [[] [] [] [] [] [] [] []];
      try discriminate Hc; by vm_compute. }
  assert (PyStr.strtoul0 (c :: l) = Some (n, [])) as Hst.
  { unfold PyStr.strtoul0. by rewrite H0, Hv, Hd. }
  unfold PyStr.int_text. cbn [PyStr.lstrip].
  change (PyStr.isspace "-") with false. cbv iota.
  change (Ascii.eqb "-" "-") with true. cbv iota.
  cbn [PyStr.lstrip]. rewrite Hs, Hm, Hp, Hst. simpl PyStr.lstrip. cbv iota.
  split; f_equal; lia.
Qed.

Lemma int_text_to_uint (p : positive) :
  PyStr.of_int (Z.pos p) = NilEmpty.string_of_uint (Pos.to_uint p) ∧
  PyStr.of_int (Z.neg p) = String "-" (NilEmpty.string_of_uint (Pos.to_uint p)) ∧
  PyStr.int_text (list_ascii_of_string (NilEmpty.string_of_uint (Pos.to_uint p)))
    = Some (Z.pos p) ∧
  PyStr.int_text
    ("-"%char :: list_ascii_of_string (NilEmpty.string_of_uint (Pos.to_uint p)))
    = Some (Z.neg p).
Proof.
  destruct (to_uint_normal p) as [Hnil H0].
  pose proof (digits_uint (Pos.to_uint p)) as Hd.
  rewrite DecimalPos.Unsigned.of_to in Hd.
  unfold PyStr.of_int. simpl Z.to_int.
  unfold NilZero.string_of_int, NilZero.string_of_uint.
  destruct (Pos.to_uint p) as [|d|d|d|d|d|d|d|d|d|d];
    [done|by destruct (H0 d)|..];
    (split; [done|]); (split; [done|]);
    cbn [NilEmpty.string_of_uint list_ascii_of_string] in *;
    by apply int_text_digits.
Qed.

Lemma int_base0_of_int (n : Z) : PyStr.int_base0 (PyStr.of_int n) = Some n.
Proof.
  unfold PyStr.int_base0. destruct n as [|p|p]; [done|..];
    destruct (int_text_to_uint p) as (Hp & Hn & Htp & Htn).
  - by rewrite Hp.
  - by rewrite Hn.
Qed.

Lemma int_decimal_of_int (n : Z) :
  (0 ≤ n)%Z → PyStr.isdigit (PyStr.of_int n) = true ∧
          PyStr.int_decimal (PyStr.of_int n) = n.
Proof.
  intros Hn. destruct n as [|p|p]; [done| |lia].
  destruct (int_text_to_uint p) as (Hp & _). rewrite Hp.
  destruct (to_uint_normal p) as [Hnil _].
  unfold PyStr.isdigit, PyStr.int_decimal.
  rewrite digits_uint, DecimalPos.Unsigned.of_to.
  pose proof (is_digit_uint (Pos.to_uint p)) as Hd.
  destruct (Pos.to_uint p); done.
Qed.

(** X8: the decimal text of an integer reads back as the integer, so
    [validate_pos_int] treats the text as it treats the integer: it
    returns the integer when it is not negative and raises the same
    ValueError when it is. *)
Theorem integer_text_round_trip (n : Z) :
  PyStr.int_base0 (PyStr.of_int n) = Some n ∧
  validate_pos_int (VStr (PyStr.of_int n)) = validate_pos_int (VInt n) ∧
  validate_pos_int (VInt n) =
    if (n <? 0)%Z
    then Raise (Raised ValueError ("Value must be positive: " +:+ PyStr.of_int n))
    else Return (VInt n).
Proof.
  split; [apply int_base0_of_int|]. split; [|done].
  unfold validate_pos_int, pos_int_coerce. by rewrite int_base0_of_int.
Qed.

(** X9: a user or a group given as the decimal text of a number that is
    not negative is this number, whatever the databases of the system
    hold under the text. *)
Theorem numeric_user_and_group (os : OS) (n : Z) :
  (0 ≤ n)%Z →
  validate_user os (VStr (PyStr.of_int n)) = Return (VInt n) ∧
  validate_group os (VStr (PyStr.of_int n)) = Return (VInt n).
Proof.
  intros [Hd Hv]%int_decimal_of_int. unfold validate_user, validate_group.
  by rewrite Hd, Hv.
Qed.

Lemma numeric_user_and_group_witness :
  validate_user example_os (VStr "1000") = Return (VInt 1000) ∧
  validate_group example_os (VStr "1000") = Return (VInt 1000).
Proof. apply (numeric_user_and_group example_os 1000). lia. Defined.

(** ** White space around a value *)









Lemma digit_value_space c base :
  PyStr.isspace c = true → (base ≤ 36)%N → (PyStr.digit_value c <? base)%N = false.
Proof.
  intros Hc Hb. apply N.ltb_ge.
  assert (PyStr.digit_value c = 37%N) as ->; [|lia].
  destruct c as [[] [] [] [] [] [] [] []]; try discriminate Hc; reflexivity.
Qed.

Lemma digits_app_space base acc l post :
  PyStr.all_space post = true → (base ≤ 36)%N →
  PyStr.digits base acc (l ++ post) =
  ((PyStr.digits base acc l).1, (PyStr.digits base acc l).2 ++ post).
Proof.
  intros Hpost Hb. revert acc. induction l as [|c l IH]; intros acc; simpl.
  - destruct post as [|c post]; [done|]. simpl in *.
    apply andb_true_iff in Hpost as [Hc _].
    by rewrite (digit_value_space c base Hc Hb).
  - destruct (PyStr.digit_value c <? base)%N; [apply IH|done].
Qed.

Lemma eqb_space c (a : ascii) :
  PyStr.isspace c = true → PyStr.isspace a = false → Ascii.eqb c a = false.
Proof. intros Hc Ha. apply Ascii.eqb_neq. by intros ->; congruence. Qed.

Lemma prefixed_app_space a b base l post :
  PyStr.all_space post = true → (base ≤ 36)%N →
  PyStr.isspace a = false → PyStr.isspace b = false →
  PyStr.prefixed a b base (l ++ post) =
  match PyStr.prefixed a b base l with
  | Some r => Some (r.1, r.2 ++ post)
  | None => None
  end.
Proof.
  intros Hpost Hb Ha Hb'. unfold PyStr.prefixed.
  destruct l as [|c l]; cbn [app].
  - destruct post as [|c post]; [done|]. simpl in Hpost.
    apply andb_true_iff in Hpost as [Hc _]. unfold PyStr.is_one_of.
    by rewrite (eqb_space c a Hc Ha), (eqb_space c b Hc Hb').
  - destruct (PyStr.is_one_of a b c); [|done].
    destruct l as [|d l]; cbn [app].
    + destruct post as [|d post]; [done|]. simpl in Hpost.
      apply andb_true_iff in Hpost as [Hd _].
      by rewrite (digit_value_space d base Hd Hb).
    + destruct (PyStr.digit_value d <? base)%N; [|done].
      change (d :: l ++ post) with ((d :: l) ++ post).
      by rewrite (digits_app_space base 0 (d :: l) post Hpost Hb).
Qed.

Lemma strtoul0_app_space l post :
  PyStr.all_space post = true →
  PyStr.strtoul0 (l ++ post) =
  match PyStr.strtoul0 l with
  | Some r => Some (r.1, r.2 ++ post)
  | None => None
  end.
Proof.
  intros Hpost. unfold PyStr.strtoul0. destruct l as [|c l]; cbn [app].
  - destruct post as [|c post]; [done|]. simpl in Hpost.
    apply andb_true_iff in Hpost as [Hc _].
    rewrite (eqb_space c "0" Hc eq_refl).
    by rewrite (digit_value_space c 10 Hc).
  - destruct (Ascii.eqb c "0").
    + rewrite !prefixed_app_space by done.
      destruct (PyStr.prefixed "x" "X" 16 l); [done|].
      destruct (PyStr.prefixed "o" "O" 8 l); [done|].
      destruct (PyStr.prefixed "b" "B" 2 l); [done|].
      by rewrite (digits_app_space 8 0 l post Hpost).
    + destruct (PyStr.digit_value c <? 10)%N; [|done].
      change (c :: l ++ post) with ((c :: l) ++ post).
      by rewrite (digits_app_space 10 0 (c :: l) post Hpost).
Qed.



Lemma strtoul0_space post :
  PyStr.all_space post = true → PyStr.strtoul0 post = None.
Proof.
  intros Hpost. pose proof (strtoul0_app_space [] post Hpost) as H.
  by simpl in H.
Qed.




(** ** The values that settings hold *)






(** ** The attributes [uid], [gid] and [address] *)

(** X12: where [settings] is the dictionary, [uid] and [gid] read as the
    values held by [user] and [group] and raise KeyError when these are
    not registered; after a [set] of [user], [uid] is what the validator
    returned, or the value held before when it raised.  [address] reads
    as the parsed value of [bind]; an AttributeError raised while parsing
    is not seen by the caller, who gets what [__getattr__] gives for the
    name [address]. *)
Theorem uid_gid_and_address (os : OS) (self : Config.t)
    (d : gmap string Setting.t) :
  Config.settings self = Config.Dict d →
  Config.getattribute os self "uid" =
    match d !! "user" with
    | Some s => Return (Config.AVal (Setting.get s))
    | None => Raise (Interp KeyError)
    end ∧
  Config.getattribute os self "gid" =
    match d !! "group" with
    | Some s => Return (Config.AVal (Setting.get s))
    | None => Raise (Interp KeyError)
    end ∧
  Config.getattribute os self "address" =
    match d !! "bind" with
    | Some s =>
        match parse_address os (Setting.get s) with
        | Return a => Return (Config.AAddress a)
        | Raise e =>
            if decide (class_of e = AttributeError)
            then match d !! "address" with
                 | Some s' => Return (Config.AVal (Setting.get s'))
                 | None => Raise (Config.no_setting "address")
                 end
            else Raise e
        end
    | None => Raise (Interp KeyError)
    end ∧
  ∀ raw s, d !! "user" = Some s →
    Config.getattribute os (Config.after (Config.set os self "user" raw)) "uid" =
    match call_validator os (Setting.validator s) raw with
    | Return v => Return (Config.AVal v)
    | Raise _ => Return (Config.AVal (Setting.get s))
    end.
Proof.
  intros Hd.
  assert (Huid : ∀ self d, Config.settings self = Config.Dict d →
    Config.getattribute os self "uid" =
    match d !! "user" with
    | Some s => Return (Config.AVal (Setting.get s))
    | None => Raise (Interp KeyError)
    end).
  { clear. intros self d Hd. unfold Config.getattribute. simpl.
    unfold Config.uid. rewrite Hd. simpl. by destruct (d !! "user"). }
  split_and!.
  - by apply Huid.
  - unfold Config.getattribute. simpl. unfold Config.gid. rewrite Hd. simpl.
    by destruct (d !! "group").
  - unfold Config.getattribute. simpl. unfold Config.address. rewrite Hd. simpl.
    destruct (d !! "bind") as [s|]; simpl; [|done].
    destruct (parse_address os (Setting.get s)) as [a|e]; simpl; [done|].
    case_decide; [|done].
    rewrite (getattr_Dict self d "address" Hd).
    by destruct (d !! "address").
  - intros raw s Hs. rewrite (set_Dict os self d "user" s raw Hd Hs).
    destruct (call_validator os (Setting.validator s) raw) as [v|e]; simpl.
    + erewrite Huid by done. by rewrite lookup_insert_eq.
    + by rewrite (Huid self d Hd), Hs.
Qed.

Lemma uid_gid_and_address_witness :
  Config.getattribute example_os
    (Config.after (Config.set example_os fresh_config "user" (VStr "root"))) "uid" =
    Return (Config.AVal (VInt 0)) ∧
  Config.getattribute example_os fresh_config "gid" = Return (Config.AVal VNone).
Proof.
  destruct (uid_gid_and_address example_os fresh_config module_settings eq_refl)
    as (_ & Hgid & _ & Hset).
  split.
  - destruct (module_settings !! "user") as [s|] eqn:E; [|by vm_compute in E].
    rewrite (Hset (VStr "root") s eq_refl).
    vm_compute in E. injection E as <-. reflexivity.
  - rewrite Hgid. reflexivity.
Defined.
